(** * Q15 saturating AXPY: scalar reference and RVV kernel

    A shallow embedding of [src/q15_axpy_challenge.c].  The C functions work
    on [int16_t] arrays reached through pointers, so the embedding threads an
    explicit machine state (a heap of 16-bit cells plus the trace of memory
    accesses) through a small state-and-error monad:

    - a cell that is not allocated cannot be read or written (the access is
      undefined behaviour, outcome [Fault]);
    - signed 32-bit arithmetic that leaves the [int32_t] range is undefined
      behaviour as well ([Fault]);
    - the chunked loop of the vector path takes its step from the hardware,
      so it runs on fuel; running out of fuel is the outcome [Timeout]. *)

From Stdlib Require Import ZArith Lia List.
From stdpp Require Import base tactics option list gmap.

Open Scope Z_scope.

(** ** Machine integers *)

Module MachInt.

(** Two's-complement reading of the low [w] bits of [x]. *)
Definition sint (w x : Z) : Z := (x + 2 ^ (w - 1)) mod 2 ^ w - 2 ^ (w - 1).

(** Unsigned reading of the low [w] bits of [x]. *)
Definition uint (w x : Z) : Z := x mod 2 ^ w.

Definition INT16_MIN : Z := -32768.
Definition INT16_MAX : Z := 32767.
Definition INT32_MIN : Z := -2147483648.
Definition INT32_MAX : Z := 2147483647.

Definition is_i16 (x : Z) : Prop := INT16_MIN <= x <= INT16_MAX.
Definition is_i32 (x : Z) : Prop := INT32_MIN <= x <= INT32_MAX.

Definition in_i32 (x : Z) : bool := (INT32_MIN <=? x) && (x <=? INT32_MAX).

(** [(int16_t)v] for an [int32_t] value [v]. *)
Definition cast_i16 (v : Z) : Z := sint 16 v.

(** [size_t] is the 64-bit unsigned type of the RV64 targets the vector
    path is built for; [(size_t)n] reduces modulo [2^64]. *)
Definition SIZE_BITS : Z := 64.
Definition to_size_t (n : Z) : Z := uint SIZE_BITS n.
Definition size_add (x y : Z) : Z := uint SIZE_BITS (x + y).
Definition size_sub (x y : Z) : Z := uint SIZE_BITS (x - y).

End MachInt.
Import MachInt.

(** ** Machine state and the execution monad *)

(** Addresses count [int16_t] elements: [p + i] is the C pointer [p + i]. *)
Inductive event : Type :=
  | EvLoad (p : Z)
  | EvStore (p : Z)
  | EvVsetvl (avl vl : Z).

Record state : Type := mkState { heap : gmap Z Z; trace : list event }.

Inductive result (A : Type) : Type :=
  | Ok (x : A) (s : state)
  | Fault
  | Timeout.
Arguments Ok {A} x s.
Arguments Fault {A}.
Arguments Timeout {A}.

Definition M (A : Type) : Type := state -> result A.

Definition ret {A} (x : A) : M A := fun s => Ok x s.
Definition fault {A} : M A := fun _ => Fault.
Definition timeout {A} : M A := fun _ => Timeout.

Definition bind {A B} (m : M A) (k : A -> M B) : M B :=
  fun s => match m s with
           | Ok x s' => k x s'
           | Fault => Fault
           | Timeout => Timeout
           end.

Declare Scope exec_scope.
Delimit Scope exec_scope with exec.
Notation "x <- m ;; k" := (bind m (fun x => k))
  (at level 100, m at next level, right associativity) : exec_scope.
Notation "m ;;; k" := (bind m (fun _ => k))
  (at level 100, right associativity) : exec_scope.
Open Scope exec_scope.

Definition log (e : event) (s : state) : state :=
  mkState (heap s) (trace s ++ [e]).

(** The [int16_t] value held by a raw cell content. *)
Definition cell (h : gmap Z Z) (p : Z) : Z := sint 16 (default 0 (h !! p)).

(** [p[0]] read as [int16_t]. *)
Definition load_i16 (p : Z) : M Z :=
  fun s => match heap s !! p with
           | Some _ => Ok (cell (heap s) p) (log (EvLoad p) s)
           | None => Fault
           end.

(** [p[0] = v]. *)
Definition store_i16 (p v : Z) : M unit :=
  fun s => match heap s !! p with
           | Some _ => Ok tt (mkState (<[p := v]> (heap s)) (trace s ++ [EvStore p]))
           | None => Fault
           end.

(** Signed [int32_t] arithmetic of C: a result outside the type is undefined. *)
Definition checked_i32 (v : Z) : M Z := if in_i32 v then ret v else fault.
Definition add_i32 (x y : Z) : M Z := checked_i32 (x + y).
Definition sub_i32 (x y : Z) : M Z := checked_i32 (x - y).
Definition mul_i32 (x y : Z) : M Z := checked_i32 (x * y).
Definition neg_i32 (x : Z) : M Z := checked_i32 (- x).

(** [for (int i = lo; ...; ++i) acc = body i acc], for [k] iterations. *)
Fixpoint for_range {A} (k : nat) (i : Z) (body : Z -> A -> M A) (acc : A) : M A :=
  match k with
  | O => ret acc
  | S k' => acc' <- body i acc ;; for_range k' (i + 1) body acc'
  end.

(** [while (i < n) i = body i], on fuel: one unit per iteration. *)
Fixpoint while_lt (fuel : nat) (n : Z) (body : Z -> M Z) (i : Z) : M Z :=
  if i <? n then
    match fuel with
    | O => timeout
    | S fuel' => i' <- body i ;; while_lt fuel' n body i'
    end
  else ret i.

(** ** Scalar reference *)

Definition sat_q15_scalar (v : Z) : Z :=
  if 32767 <? v then 32767
  else if v <? -32768 then -32768
  else cast_i16 v.

(** [(int32_t)ai + (int32_t)alpha * (int32_t)bi] *)
Definition q15_axpy_ref_acc (ai alpha bi : Z) : M Z :=
  prod <- mul_i32 alpha bi ;;
  add_i32 ai prod.

Definition q15_axpy_ref_body (a b y alpha i : Z) (_ : unit) : M unit :=
  ai <- load_i16 (a + i) ;;
  bi <- load_i16 (b + i) ;;
  acc <- q15_axpy_ref_acc ai alpha bi ;;
  store_i16 (y + i) (sat_q15_scalar acc).

Definition q15_axpy_ref (a b y n alpha : Z) : M unit :=
  for_range (Z.to_nat n) 0 (q15_axpy_ref_body a b y alpha) tt.

(** ** The RVV operations used by the kernel

    Semantics of the vector instructions behind the intrinsics of
    [<riscv_vector.h>], for SEW = 16 and LMUL = 1 (and the widened SEW = 32,
    LMUL = 2 group).  A vector value is the list of its active lanes; every
    operation works on the first [vl] lanes of its operands. *)

Module RVV.

(** Fixed-point rounding mode held in the [vxrm] register. *)
Inductive rounding : Type := RNU | RNE | RDN | ROD.

(** Rounding increment of [v >> d]. *)
Definition round_incr (rm : rounding) (v d : Z) : Z :=
  match rm with
  | RNU => Z.b2z (Z.testbit v (d - 1))
  | RNE => Z.b2z (Z.testbit v (d - 1)
                  && (negb (Z.land v (2 ^ (d - 1) - 1) =? 0) || Z.testbit v d))
  | RDN => 0
  | ROD => Z.b2z (negb (Z.testbit v d) && negb (Z.land v (2 ^ d - 1) =? 0))
  end.

Definition roundoff_signed (rm : rounding) (v d : Z) : Z :=
  Z.shiftr v d + round_incr rm v d.

(** Signed saturation to 16 bits, as done by the narrowing clip. *)
Definition clip_i16 (v : Z) : Z := Z.max INT16_MIN (Z.min INT16_MAX v).

Definition lanes (vl : Z) (v : list Z) : list Z := take (Z.to_nat vl) v.

Fixpoint load_lanes (k : nat) (p : Z) : M (list Z) :=
  match k with
  | O => ret []
  | S k' => x <- load_i16 p ;; xs <- load_lanes k' (p + 1) ;; ret (x :: xs)
  end.

Fixpoint store_lanes (v : list Z) (p : Z) : M unit :=
  match v with
  | [] => ret tt
  | x :: v' => store_i16 p x ;;; store_lanes v' (p + 1)
  end.

(** Unit-stride load and store of [vl] 16-bit elements. *)
Definition vle16_v_i16m1 (p vl : Z) : M (list Z) := load_lanes (Z.to_nat vl) p.
Definition vse16_v_i16m1 (p : Z) (v : list Z) (vl : Z) : M unit :=
  store_lanes (lanes vl v) p.

(** Widening signed multiply by a scalar: 16 x 16 -> 32 bits. *)
Definition vwmul_vx_i32m2 (v : list Z) (rs vl : Z) : list Z :=
  map (fun x => sint 32 (x * rs)) (lanes vl v).

(** Widening signed add of a scalar: the lane is sign-extended to 32 bits. *)
Definition vwadd_vx_i32m2 (v : list Z) (rs vl : Z) : list Z :=
  map (fun x => sint 32 (x + rs)) (lanes vl v).

(** 32-bit lane-wise add; the sum wraps modulo [2^32]. *)
Definition vadd_vv_i32m2 (v1 v2 : list Z) (vl : Z) : list Z :=
  zip_with (fun x1 x2 => sint 32 (x1 + x2)) (lanes vl v1) (lanes vl v2).

Definition vmin_vx_i32m2 (v : list Z) (rs vl : Z) : list Z :=
  map (fun x => Z.min x rs) (lanes vl v).

Definition vmax_vx_i32m2 (v : list Z) (rs vl : Z) : list Z :=
  map (fun x => Z.max x rs) (lanes vl v).

Section Hart.

(** What the hart answers to [vsetvl] for e16/m1, as a function of the
    requested length, and the rounding mode it is in. *)
Variable vsetvl_hw : Z -> Z.
Variable vxrm : rounding.

Definition vsetvl_e16m1 (avl : Z) : M Z :=
  fun s => let vl := vsetvl_hw avl in Ok vl (log (EvVsetvl avl vl) s).

(** Narrowing fixed-point clip: shift right by the low 5 bits of [shift],
    round as [vxrm] says, saturate to 16 bits. *)
Definition vnclip_wx_i16m1 (v : list Z) (shift vl : Z) : list Z :=
  map (fun x => clip_i16 (roundoff_signed vxrm x (Z.land shift 31))) (lanes vl v).

End Hart.

End RVV.
Import RVV.

(** ** The vector kernel *)

(** The preprocessor symbols the kernel tests; an undefined
    [__riscv_v_intrinsic] reads as [0] in [#if]. *)
Record build : Type := mkBuild {
  riscv : bool;
  riscv_vector : bool;
  riscv_v_intrinsic : Z
}.

(** [!defined(__riscv) || !defined(__riscv_vector) || (__riscv_v_intrinsic < 1000000)] *)
Definition fallback_build (cfg : build) : bool :=
  negb (riscv cfg) || negb (riscv_vector cfg) || (riscv_v_intrinsic cfg <? 1000000).

Section Kernel.

Variable vsetvl_hw : Z -> Z.
Variable vxrm : rounding.

Definition q15_axpy_rvv_body (a b y n alpha i : Z) : M Z :=
  vl <- vsetvl_e16m1 vsetvl_hw (size_sub (to_size_t n) i) ;;
  va <- vle16_v_i16m1 (a + i) vl ;;
  vb <- vle16_v_i16m1 (b + i) vl ;;
  let vprod := vwmul_vx_i32m2 vb alpha vl in
  let va32 := vwadd_vx_i32m2 va 0 vl in
  let vacc := vadd_vv_i32m2 va32 vprod vl in
  let vacc := vmin_vx_i32m2 vacc 32767 vl in
  let vacc := vmax_vx_i32m2 vacc (-32768) vl in
  let vy := vnclip_wx_i16m1 vxrm vacc 0 vl in
  vse16_v_i16m1 (y + i) vy vl ;;;
  ret (size_add i vl).

Definition q15_axpy_rvv (cfg : build) (fuel : nat) (a b y n alpha : Z) : M unit :=
  if fallback_build cfg then q15_axpy_ref a b y n alpha
  else while_lt fuel (to_size_t n) (q15_axpy_rvv_body a b y n alpha) 0 ;;; ret tt.

End Kernel.

(** ** Comparison utility *)

(** One iteration of the comparison loop on the pair [(ok, md)]. *)
Definition verify_equal_body (ref test i : Z) (st : Z * Z) : M (Z * Z) :=
  let '(ok, md) := st in
  r <- load_i16 (ref + i) ;;
  t <- load_i16 (test + i) ;;
  d <- sub_i32 r t ;;
  d <- (if d <? 0 then neg_i32 d else ret d) ;;
  let md := if md <? d then d else md in
  let ok := if negb (d =? 0) then 0 else ok in
  ret (ok, md).

(** Returns [(ok, md)]: the C function returns [ok] and leaves [md] in the
    [int32_t] the caller passed by address. *)
Definition verify_equal (ref test n : Z) : M (Z * Z) :=
  for_range (Z.to_nat n) 0 (verify_equal_body ref test) (1, 0).

(** ** Specification-level vocabulary *)

(** The state a call starts from: a heap and an empty access trace. *)
Definition init (h : gmap Z Z) : state := mkState h [].

(** The cells [p[0..n-1]] exist. *)
Definition allocated (h : gmap Z Z) (p n : Z) : Prop :=
  forall j, 0 <= j < n -> is_Some (h !! (p + j)).

(** The output range [y[0..n-1]] and the input range [a[0..n-1]] share no cell. *)
Definition disjoint (y a n : Z) : Prop := y + n <= a \/ a + n <= y.

(** No element of [a] is read after an earlier iteration has written it
    through [y]: [y + j' = a + j] never holds with [j' < j < n].  Covers
    disjoint ranges and the in-place call [y = a]. *)
Definition hazard_free (y a n : Z) : Prop := y <= a \/ a + n <= y.

(** Heap after writing the values [v] to [p[0..]]. *)
Fixpoint write_lanes (h : gmap Z Z) (p : Z) (v : list Z) : gmap Z Z :=
  match v with
  | [] => h
  | x :: v' => write_lanes (<[p := x]> h) (p + 1) v'
  end.

(** The array [p[0..n-1]] read off a heap. *)
Definition read_array (h : gmap Z Z) (p n : Z) : list Z :=
  map (cell h) (seqZ p n).

(** The value one iteration of the reference loop stores for the operands
    [ai], [bi]: the pure part of the loop body. *)
Definition q15_elt (ai alpha bi : Z) : Z := sat_q15_scalar (ai + alpha * bi).

(** Element [j] of the output, computed from the heap [h]. *)
Definition out_elt (h : gmap Z Z) (a b alpha j : Z) : Z :=
  q15_elt (cell h (a + j)) alpha (cell h (b + j)).

(** The contract in the words of the specification: [clamp(acc, lo, hi)]. *)
Definition clamp (acc lo hi : Z) : Z :=
  if hi <? acc then hi else if acc <? lo then lo else acc.

(** Addresses stored to, addresses loaded from, and chunk sizes answered,
    in the order of the trace. *)
Definition stores (tr : list event) : list Z :=
  omap (fun e => match e with EvStore p => Some p | _ => None end) tr.
Definition loads (tr : list event) : list Z :=
  omap (fun e => match e with EvLoad p => Some p | _ => None end) tr.
Definition chunks (tr : list event) : list (Z * Z) :=
  omap (fun e => match e with EvVsetvl avl vl => Some (avl, vl) | _ => None end) tr.

(** The hart answers every non-empty request with a chunk that makes
    progress and does not overrun. *)
Definition vsetvl_ok (vsetvl_hw : Z -> Z) : Prop :=
  forall avl, 0 < avl -> 1 <= vsetvl_hw avl <= avl.

(** [verify_equal] in the words of the specification: the largest absolute
    per-index difference, [0] for empty arrays. *)
Definition max_abs_diff (r t : list Z) : Z :=
  foldr Z.max 0 (zip_with (fun x y => Z.abs (x - y)) r t).

(** The accesses of the reference loop for the indices [i .. i+k-1]. *)
Definition ref_trace (a b y i : Z) (k : nat) : list event :=
  flat_map (fun j => [EvLoad (a + j); EvLoad (b + j); EvStore (y + j)])
           (seqZ i (Z.of_nat k)).

(** Every load of the trace falls in [a[0..n-1]] or [b[0..n-1]]. *)
Definition loads_within (a b n : Z) (tr : list event) : Prop :=
  Forall (fun p => a <= p < a + n \/ b <= p < b + n) (loads tr).

(** Every chunk of the trace makes progress and fits the request. *)
Definition chunks_progress (tr : list event) : Prop :=
  Forall (fun c : Z * Z => 1 <= snd c <= fst c) (chunks tr).

(** What a completed call started from [init h] leaves behind: the heap is
    [h] with [y[0..n-1]] overwritten, the stores are exactly the output
    cells in increasing order, every load is from an input array, and, when
    no input cell is read after it was written ([b] does not matter when
    [alpha = 0]), the values are those of [out_elt] on the initial heap. *)
Definition axpy_done (h : gmap Z Z) (a b y n alpha : Z) (r : result unit) (s' : state)
  : Prop :=
  r = Ok tt s' /\
  exists vs,
    length vs = Z.to_nat n /\
    heap s' = write_lanes h y vs /\
    stores (trace s') = seqZ y n /\
    loads_within a b n (trace s') /\
    (hazard_free y a n -> alpha = 0 \/ hazard_free y b n ->
     vs = map (out_elt h a b alpha) (seqZ 0 n)).

(** ** Concrete inputs *)

(** Boolean check of [allocated], for concrete heaps. *)
Definition allocatedb (h : gmap Z Z) (p n : Z) : bool :=
  forallb (fun j => match h !! (p + j) with Some _ => true | None => false end)
          (seqZ 0 n).

(** A hart whose e16/m1 group holds [vlmax] elements. *)
Definition vsetvl_vlmax (vlmax avl : Z) : Z := Z.min avl vlmax.

(** A build for an RVV 1.0 target, and an off-target build. *)
Definition vector_build : build := mkBuild true true 1000000.
Definition scalar_build : build := mkBuild false false 0.

(** [a] at 0, [b] at 100, [y] at 200 (five elements each), and one more
    cell after [y]. *)
Definition demo_heap : gmap Z Z :=
  write_lanes
    (write_lanes (write_lanes ∅ 0 [32767; -32768; 100; 5; 7]) 100 [32767; 32767; 10; 1; 1])
    200 [0; 0; 0; 0; 0; 9].

(** An in-place call on one element: [a = y] at 0, [b] at 1. *)
Definition inplace_heap : gmap Z Z := write_lanes ∅ 0 [1; 1].

(** A layout outside the caller contract: [a] at 0 and [y = a + 1] overlap,
    so an output cell is an input of a later iteration; [b] at 100. *)
Definition overlap_heap : gmap Z Z :=
  write_lanes (write_lanes ∅ 0 [1; 2; 3]) 100 [0; 0].

(** The cells [y[0..n-1]] a run leaves, when it completes. *)
Definition outputs {A} (r : result A) (y n : Z) : option (list Z) :=
  match r with
  | Ok _ s => Some (read_array (heap s) y n)
  | _ => None
  end.

(** The chunks a run requested, when it completes. *)
Definition requested {A} (r : result A) : option (list (Z * Z)) :=
  match r with
  | Ok _ s => Some (chunks (trace s))
  | _ => None
  end.

(** ** The driver

    [main] gets its four arrays from [aligned_alloc] and its data from
    [rand()] after [srand(1234)]; what the allocator and the C library return
    is taken as given: the four base addresses, and the sequence [rand] of
    the values of successive [rand()] calls.  The values read from the
    cycle counter and the [printf] reports do not influence memory or the
    exit status and are left out. *)

(** [(int16_t)((rand() % 65536) - 32768)], for the value [r] of [rand()]. *)
Definition rand_q15 (r : Z) : M Z :=
  d <- sub_i32 (Z.rem r 65536) 32768 ;;
  ret (cast_i16 d).

(** One iteration of the fill loop: calls number [2i] and [2i+1] of [rand()]. *)
Definition main_fill_body (rand : Z -> Z) (a b i : Z) (_ : unit) : M unit :=
  va <- rand_q15 (rand (2 * i)) ;;
  store_i16 (a + i) va ;;;
  vb <- rand_q15 (rand (2 * i + 1)) ;;
  store_i16 (b + i) vb.

Section Driver.

Variable vsetvl_hw : Z -> Z.
Variable vxrm : rounding.

(** The statements of [main], the block under [#if defined(__riscv)]
    included; returns the exit status. *)
Definition main_body (cfg : build) (fuel : nat) (rand : Z -> Z) (a b y0 y1 : Z)
  : M Z :=
  let ok := 1 in
  let N := 4096 in
  for_range (Z.to_nat N) 0 (main_fill_body rand a b) tt ;;;
  let alpha := 3 in
  q15_axpy_ref a b y0 N alpha ;;;
  ok <- (if riscv cfg then
           q15_axpy_rvv vsetvl_hw vxrm cfg fuel a b y1 N alpha ;;;
           r <- verify_equal y0 y1 N ;;
           ret (fst r)
         else ret ok) ;;
  ret (if negb (ok =? 0) then 0 else 1).

(** The program.  [main] calls [rdcycle()] unconditionally (lines 149 and
    151) and the file defines [rdcycle] only under [#if defined(__riscv)]:
    without [__riscv] there is nothing to link and no program, [None]. *)
Definition main (cfg : build) (fuel : nat) (rand : Z -> Z) (a b y0 y1 : Z)
  : option (M Z) :=
  if riscv cfg then Some (main_body cfg fuel rand a b y0 y1) else None.

End Driver.

(** ** The comparison as a call, with its out-parameter *)

(** [*p = v] for an [int32_t] object at [p]: it occupies two 16-bit cells,
    the low half first (RISC-V is little-endian). *)
Definition store_i32 (p v : Z) : M unit :=
  store_i16 p (Z.land v 65535) ;;;
  store_i16 (p + 1) (Z.shiftr v 16).

(** The [int32_t] value held by the two cells at [p]. *)
Definition cell_i32 (h : gmap Z Z) (p : Z) : Z :=
  Z.land (default 0 (h !! p)) 65535 + 65536 * cell h (p + 1).

(** [verify_equal(ref, test, n, max_diff)] as the C function is called: the
    loop, modelled by [verify_equal], then the store [*max_diff = md] of
    line 124; returns [ok]. *)
Definition verify_equal_out (ref test n max_diff : Z) : M Z :=
  r <- verify_equal ref test n ;;
  store_i32 max_diff (snd r) ;;;
  ret (fst r).

(** The accesses of the chunked loop from cursor [i], on a hart answering
    [vsetvl_hw], within [fuel] iterations. *)
Fixpoint rvv_trace (vsetvl_hw : Z -> Z) (a b y n : Z) (fuel : nat) (i : Z)
  : list event :=
  if i <? n then
    match fuel with
    | O => []
    | S fuel' =>
        let vl := vsetvl_hw (n - i) in
        EvVsetvl (n - i) vl
          :: map EvLoad (seqZ (a + i) vl)
          ++ map EvLoad (seqZ (b + i) vl)
          ++ map EvStore (seqZ (y + i) vl)
          ++ rvv_trace vsetvl_hw a b y n fuel' (i + vl)
    end
  else [].

(** The chunk requests [(avl, vl)] of a run cover [rest] elements: each
    request asks for all that is left, is granted between 1 and that many,
    and the next one starts where it ended, until nothing is left. *)
Fixpoint chunks_cover (rest : Z) (cs : list (Z * Z)) : Prop :=
  match cs with
  | [] => rest = 0
  | (avl, vl) :: cs' => avl = rest /\ 1 <= vl <= rest /\ chunks_cover (rest - vl) cs'
  end.

(** Four arrays of 4096 cells, as [main] allocates them. *)
Definition main_heap : gmap Z Z :=
  write_lanes ∅ 0 (replicate (4 * 4096) 0).

(** ** Machine-integer facts *)

Lemma sint16_id x : is_i16 x -> sint 16 x = x.
Proof.
  unfold is_i16, INT16_MIN, INT16_MAX, sint. intros H.
  change (2 ^ (16 - 1)) with 32768. change (2 ^ 16) with 65536.
  rewrite Z.mod_small; lia.
Qed.

Lemma sint16_range x : is_i16 (sint 16 x).
Proof.
  unfold is_i16, INT16_MIN, INT16_MAX, sint.
  change (2 ^ (16 - 1)) with 32768. change (2 ^ 16) with 65536.
  pose proof (Z.mod_pos_bound (x + 32768) 65536). lia.
Qed.

Lemma sint32_id x : is_i32 x -> sint 32 x = x.
Proof.
  unfold is_i32, INT32_MIN, INT32_MAX, sint. intros H.
  change (2 ^ (32 - 1)) with 2147483648. change (2 ^ 32) with 4294967296.
  rewrite Z.mod_small; lia.
Qed.

Lemma in_i32_true x : is_i32 x -> in_i32 x = true.
Proof.
  unfold is_i32, in_i32. intros H.
  apply andb_true_intro; split; apply Z.leb_le; lia.
Qed.

Lemma to_size_t_id n : 0 <= n <= INT32_MAX -> to_size_t n = n.
Proof.
  unfold to_size_t, uint, SIZE_BITS, INT32_MAX. intros H.
  change (2 ^ 64) with 18446744073709551616. rewrite Z.mod_small; lia.
Qed.

Lemma size_sub_id x y : 0 <= y <= x -> x <= INT32_MAX -> size_sub x y = x - y.
Proof.
  unfold size_sub, uint, SIZE_BITS, INT32_MAX. intros H1 H2.
  change (2 ^ 64) with 18446744073709551616. rewrite Z.mod_small; lia.
Qed.

Lemma size_add_id x y : 0 <= x -> 0 <= y -> x + y <= INT32_MAX -> size_add x y = x + y.
Proof.
  unfold size_add, uint, SIZE_BITS, INT32_MAX. intros H1 H2 H3.
  change (2 ^ 64) with 18446744073709551616. rewrite Z.mod_small; lia.
Qed.

Lemma cell_range h p : is_i16 (cell h p).
Proof. apply sint16_range. Qed.

(** ** The accumulator and the clamp *)

Lemma prod_bounds alpha bi :
  is_i16 alpha -> is_i16 bi -> - 2 ^ 30 + 2 ^ 15 <= alpha * bi <= 2 ^ 30.
Proof.
  unfold is_i16, INT16_MIN, INT16_MAX.
  change (2 ^ 30) with 1073741824. change (2 ^ 15) with 32768.
  intros Ha Hb. split; nia.
Qed.

Lemma acc_bounds ai alpha bi :
  is_i16 ai -> is_i16 alpha -> is_i16 bi ->
  - 2 ^ 30 <= ai + alpha * bi <= 2 ^ 30 + 2 ^ 15 - 1.
Proof.
  intros Ha Hal Hb. pose proof (prod_bounds alpha bi Hal Hb) as Hp.
  unfold is_i16, INT16_MIN, INT16_MAX in Ha.
  change (2 ^ 30) with 1073741824 in *. change (2 ^ 15) with 32768 in *. lia.
Qed.

Lemma prod_is_i32 alpha bi : is_i16 alpha -> is_i16 bi -> is_i32 (alpha * bi).
Proof.
  intros Hal Hb. pose proof (prod_bounds alpha bi Hal Hb) as Hp.
  unfold is_i32, INT32_MIN, INT32_MAX.
  change (2 ^ 30) with 1073741824 in *. change (2 ^ 15) with 32768 in *. lia.
Qed.

Lemma acc_is_i32 ai alpha bi :
  is_i16 ai -> is_i16 alpha -> is_i16 bi -> is_i32 (ai + alpha * bi).
Proof.
  intros Ha Hal Hb. pose proof (acc_bounds ai alpha bi Ha Hal Hb) as Hp.
  unfold is_i32, INT32_MIN, INT32_MAX.
  change (2 ^ 30) with 1073741824 in *. change (2 ^ 15) with 32768 in *. lia.
Qed.

Lemma sat_q15_scalar_clamp v : sat_q15_scalar v = clamp v (-32768) 32767.
Proof.
  unfold sat_q15_scalar, clamp, cast_i16.
  destruct (32767 <? v) eqn:Hhi; [reflexivity|].
  destruct (v <? -32768) eqn:Hlo; [reflexivity|].
  apply Z.ltb_ge in Hhi, Hlo. apply sint16_id.
  unfold is_i16, INT16_MIN, INT16_MAX. lia.
Qed.

Lemma sat_q15_scalar_range v : is_i16 (sat_q15_scalar v).
Proof.
  rewrite sat_q15_scalar_clamp. unfold clamp, is_i16, INT16_MIN, INT16_MAX.
  destruct (32767 <? v) eqn:Hhi; [lia|].
  destruct (v <? -32768) eqn:Hlo; [lia|].
  apply Z.ltb_ge in Hhi, Hlo. lia.
Qed.

Lemma q15_elt_zero_gain ai bi : is_i16 ai -> q15_elt ai 0 bi = ai.
Proof.
  intros Ha. unfold q15_elt. rewrite Z.mul_0_l, Z.add_0_r, sat_q15_scalar_clamp.
  unfold clamp, is_i16, INT16_MIN, INT16_MAX in *.
  destruct (32767 <? ai) eqn:E; [apply Z.ltb_lt in E; lia|].
  destruct (ai <? -32768) eqn:E'; [apply Z.ltb_lt in E'; lia|]. reflexivity.
Qed.

(** One lane of the vector pipeline computes what the scalar body stores. *)
Lemma rvv_lane_eq rm ai alpha bi :
  is_i16 ai -> is_i16 alpha -> is_i16 bi ->
  clip_i16 (roundoff_signed rm
              (Z.max (Z.min (sint 32 (sint 32 (ai + 0) + sint 32 (bi * alpha))) 32767)
                     (-32768))
              (Z.land 0 31))
  = q15_elt ai alpha bi.
Proof.
  intros Ha Hal Hb.
  pose proof (prod_is_i32 alpha bi Hal Hb) as Hp.
  pose proof (acc_is_i32 ai alpha bi Ha Hal Hb) as Hacc.
  assert (Hai : is_i32 ai).
  { unfold is_i16, is_i32, INT16_MIN, INT16_MAX, INT32_MIN, INT32_MAX in *. lia. }
  rewrite Z.add_0_r, (sint32_id ai Hai), (Z.mul_comm bi alpha), (sint32_id _ Hp),
    (sint32_id _ Hacc).
  change (Z.land 0 31) with 0.
  unfold roundoff_signed. rewrite Z.shiftr_0_r.
  assert (Hr : forall v, round_incr rm v 0 = 0).
  { intros v. destruct rm; simpl; try reflexivity.
    rewrite Z.land_0_r. simpl. rewrite andb_false_r. reflexivity. }
  rewrite Hr, Z.add_0_r.
  unfold q15_elt. rewrite sat_q15_scalar_clamp.
  unfold clip_i16, clamp, INT16_MIN, INT16_MAX.
  destruct (32767 <? ai + alpha * bi) eqn:Hhi.
  - apply Z.ltb_lt in Hhi. lia.
  - apply Z.ltb_ge in Hhi.
    destruct (ai + alpha * bi <? -32768) eqn:Hlo.
    + apply Z.ltb_lt in Hlo. lia.
    + apply Z.ltb_ge in Hlo. lia.
Qed.

(** ** Heaps and ranges *)

Lemma seqZ_succ_nat p (k : nat) :
  seqZ p (Z.of_nat (S k)) = p :: seqZ (p + 1) (Z.of_nat k).
Proof.
  rewrite seqZ_cons by lia. f_equal. f_equal; lia.
Qed.

Lemma seqZ_split m n k : 0 <= k <= n -> seqZ m n = seqZ m k ++ seqZ (m + k) (n - k).
Proof.
  intros H. replace n with (k + (n - k)) at 1 by lia. apply seqZ_app; lia.
Qed.

Lemma allocated_tail h p (k : nat) :
  allocated h p (Z.of_nat (S k)) ->
  is_Some (h !! p) /\ allocated h (p + 1) (Z.of_nat k).
Proof.
  intros H. split.
  - specialize (H 0). rewrite Z.add_0_r in H. apply H. lia.
  - intros j Hj. replace (p + 1 + j) with (p + (j + 1)) by lia. apply H. lia.
Qed.

Lemma allocated_insert h p n q x :
  allocated h p n -> allocated (<[q := x]> h) p n.
Proof.
  intros H j Hj. destruct (decide (q = p + j)) as [->|Hne].
  - rewrite lookup_insert_eq. eauto.
  - rewrite lookup_insert_ne by done. auto.
Qed.

Lemma allocated_sub h p n i k :
  allocated h p n -> 0 <= i -> 0 <= k -> i + k <= n -> allocated h (p + i) k.
Proof.
  intros H Hi Hk Hik j Hj. rewrite <- Z.add_assoc. apply H. lia.
Qed.

Lemma write_lanes_lookup_out h p v q :
  ~ (p <= q < p + Z.of_nat (length v)) -> write_lanes h p v !! q = h !! q.
Proof.
  revert h p. induction v as [|x v IH]; intros h p Hq; simpl; [reflexivity|].
  simpl length in Hq. rewrite IH by lia. apply lookup_insert_ne. lia.
Qed.

Lemma write_lanes_lookup_in h p v (j : nat) x :
  v !! j = Some x -> write_lanes h p v !! (p + Z.of_nat j) = Some x.
Proof.
  revert h p j. induction v as [|x' v IH]; intros h p j Hj; [discriminate|].
  destruct j as [|j]; simpl in *.
  - injection Hj as ->. rewrite write_lanes_lookup_out by lia.
    rewrite Z.add_0_r. apply lookup_insert_eq.
  - rewrite <- (IH (<[p := x']> h) (p + 1) j Hj). f_equal. lia.
Qed.

Lemma write_lanes_app h p v1 v2 :
  write_lanes h p (v1 ++ v2)
  = write_lanes (write_lanes h p v1) (p + Z.of_nat (length v1)) v2.
Proof.
  revert h p. induction v1 as [|x v1 IH]; intros h p; simpl.
  - f_equal. lia.
  - rewrite IH. f_equal. lia.
Qed.

Lemma write_lanes_allocated h p v q n :
  allocated h q n -> allocated (write_lanes h p v) q n.
Proof.
  revert h p. induction v as [|x v IH]; intros h p H; simpl; [exact H|].
  apply IH. apply allocated_insert. exact H.
Qed.

Lemma cell_ext h1 h2 p : h1 !! p = h2 !! p -> cell h1 p = cell h2 p.
Proof. unfold cell. intros ->. reflexivity. Qed.

Lemma cell_write_lanes_out h p v q :
  ~ (p <= q < p + Z.of_nat (length v)) -> cell (write_lanes h p v) q = cell h q.
Proof. intros H. apply cell_ext. apply write_lanes_lookup_out. exact H. Qed.

Lemma cell_write_lanes_in h p v (j : nat) x :
  v !! j = Some x -> is_i16 x -> cell (write_lanes h p v) (p + Z.of_nat j) = x.
Proof.
  intros Hj Hx. unfold cell. rewrite (write_lanes_lookup_in h p v j x Hj).
  simpl. apply sint16_id. exact Hx.
Qed.

Lemma out_elt_ext h1 h2 a b alpha j :
  h1 !! (a + j) = h2 !! (a + j) -> h1 !! (b + j) = h2 !! (b + j) ->
  out_elt h1 a b alpha j = out_elt h2 a b alpha j.
Proof.
  intros Ha Hb. unfold out_elt. rewrite (cell_ext h1 h2 _ Ha), (cell_ext h1 h2 _ Hb).
  reflexivity.
Qed.

(** With [alpha = 0] the element does not depend on [b] at all. *)
Lemma out_elt_stable h1 h2 a b alpha j :
  h1 !! (a + j) = h2 !! (a + j) ->
  alpha = 0 \/ h1 !! (b + j) = h2 !! (b + j) ->
  out_elt h1 a b alpha j = out_elt h2 a b alpha j.
Proof.
  intros Ha [-> | Hb]; [|apply out_elt_ext; assumption].
  unfold out_elt. rewrite !q15_elt_zero_gain by apply cell_range.
  apply cell_ext. exact Ha.
Qed.

Lemma out_elt_range h a b alpha j : is_i16 (out_elt h a b alpha j).
Proof. apply sat_q15_scalar_range. Qed.

Lemma Forall_cell h (l : list Z) : Forall is_i16 (map (cell h) l).
Proof. induction l as [|p l IH]; constructor; [apply cell_range | exact IH]. Qed.

(** ** Running the memory operations *)

Lemma load_i16_run p s :
  is_Some (heap s !! p) ->
  load_i16 p s = Ok (cell (heap s) p) (mkState (heap s) (trace s ++ [EvLoad p])).
Proof. intros [v Hv]. unfold load_i16. rewrite Hv. reflexivity. Qed.

Lemma store_i16_run p v s :
  is_Some (heap s !! p) ->
  store_i16 p v s = Ok tt (mkState (<[p := v]> (heap s)) (trace s ++ [EvStore p])).
Proof. intros [w Hw]. unfold store_i16. rewrite Hw. reflexivity. Qed.

Lemma checked_i32_run v s : is_i32 v -> checked_i32 v s = Ok v s.
Proof. intros H. unfold checked_i32. rewrite (in_i32_true v H). reflexivity. Qed.

Lemma load_lanes_run k p s :
  allocated (heap s) p (Z.of_nat k) ->
  load_lanes k p s
  = Ok (map (cell (heap s)) (seqZ p (Z.of_nat k)))
       (mkState (heap s) (trace s ++ map EvLoad (seqZ p (Z.of_nat k)))).
Proof.
  revert p s. induction k as [|k IH]; intros p [h tr] Hal.
  - simpl. rewrite app_nil_r. reflexivity.
  - apply allocated_tail in Hal as [Hp Hal].
    rewrite seqZ_succ_nat. cbn [load_lanes map]. unfold bind at 1.
    rewrite (load_i16_run p _ Hp). cbn [heap trace].
    unfold bind at 1. rewrite IH by exact Hal. cbn [heap trace].
    unfold ret. rewrite <- app_assoc. reflexivity.
Qed.

Lemma store_lanes_run v p s :
  allocated (heap s) p (Z.of_nat (length v)) ->
  store_lanes v p s
  = Ok tt (mkState (write_lanes (heap s) p v)
                   (trace s ++ map EvStore (seqZ p (Z.of_nat (length v))))).
Proof.
  revert p s. induction v as [|x v IH]; intros p [h tr] Hal.
  - simpl. rewrite app_nil_r. reflexivity.
  - cbn [length] in *. apply allocated_tail in Hal as [Hp Hal].
    rewrite seqZ_succ_nat. cbn [store_lanes map write_lanes]. unfold bind at 1.
    rewrite (store_i16_run p x _ Hp). cbn [heap trace].
    rewrite IH by (apply allocated_insert; exact Hal). cbn [heap trace].
    rewrite <- app_assoc. reflexivity.
Qed.

(** ** One iteration of each loop *)

Lemma q15_axpy_ref_acc_run ai alpha bi s :
  is_i16 ai -> is_i16 alpha -> is_i16 bi ->
  q15_axpy_ref_acc ai alpha bi s = Ok (ai + alpha * bi) s.
Proof.
  intros Ha Hal Hb. unfold q15_axpy_ref_acc, bind, mul_i32, add_i32.
  rewrite checked_i32_run by (apply prod_is_i32; assumption).
  apply checked_i32_run. apply acc_is_i32; assumption.
Qed.

Lemma q15_axpy_ref_body_run a b y alpha i s :
  is_i16 alpha ->
  is_Some (heap s !! (a + i)) -> is_Some (heap s !! (b + i)) ->
  is_Some (heap s !! (y + i)) ->
  q15_axpy_ref_body a b y alpha i tt s
  = Ok tt (mkState (<[y + i := out_elt (heap s) a b alpha i]> (heap s))
                   (trace s ++ [EvLoad (a + i); EvLoad (b + i); EvStore (y + i)])).
Proof.
  intros Hal Ha Hb Hy. destruct s as [h tr]. cbn [heap trace] in *.
  unfold q15_axpy_ref_body.
  unfold bind at 1. rewrite load_i16_run by exact Ha. cbn [heap trace].
  unfold bind at 1. rewrite load_i16_run by exact Hb. cbn [heap trace].
  unfold bind at 1.
  rewrite q15_axpy_ref_acc_run by (exact Hal || apply cell_range).
  rewrite store_i16_run by exact Hy. cbn [heap trace].
  rewrite <- !app_assoc. reflexivity.
Qed.

Lemma zip_with_seqZ (f : Z -> Z -> Z) (g1 g2 : Z -> Z) a b i (k : nat) :
  zip_with f (map g1 (seqZ (a + i) (Z.of_nat k))) (map g2 (seqZ (b + i) (Z.of_nat k)))
  = map (fun j => f (g1 (a + j)) (g2 (b + j))) (seqZ i (Z.of_nat k)).
Proof.
  revert i. induction k as [|k IH]; intros i; [reflexivity|].
  rewrite !seqZ_succ_nat. cbn [map zip_with]. f_equal.
  rewrite <- (IH (i + 1)). rewrite !Z.add_assoc. reflexivity.
Qed.

(** The lane-wise pipeline of the vector body, on whole vectors. *)
Lemma rvv_pipeline rm alpha (k : nat) la lb :
  is_i16 alpha -> Forall is_i16 la -> Forall is_i16 lb ->
  length la = k -> length lb = k ->
  vnclip_wx_i16m1 rm
    (vmax_vx_i32m2
       (vmin_vx_i32m2
          (vadd_vv_i32m2 (vwadd_vx_i32m2 la 0 (Z.of_nat k))
                         (vwmul_vx_i32m2 lb alpha (Z.of_nat k)) (Z.of_nat k))
          32767 (Z.of_nat k))
       (-32768) (Z.of_nat k))
    0 (Z.of_nat k)
  = zip_with (fun x y => q15_elt x alpha y) la lb.
Proof.
  intros Hal Hla Hlb Hka Hkb.
  unfold vnclip_wx_i16m1, vmax_vx_i32m2, vmin_vx_i32m2, vadd_vv_i32m2,
    vwadd_vx_i32m2, vwmul_vx_i32m2, lanes.
  rewrite Nat2Z.id.
  repeat (rewrite take_ge
            by (repeat (rewrite length_map || rewrite length_take
                        || rewrite length_zip_with); lia)).
  clear Hka Hkb. revert lb Hlb.
  induction Hla as [|x la Hx Hla IH]; intros lb Hlb; [reflexivity|].
  destruct Hlb as [|z lb Hz Hlb]; [reflexivity|].
  cbn [map zip_with]. f_equal; [|apply IH; exact Hlb].
  apply rvv_lane_eq; assumption.
Qed.

Section BodyRun.

Variable vsetvl_hw : Z -> Z.
Variable vxrm : rounding.

Lemma q15_axpy_rvv_body_run a b y n alpha i (k : nat) s :
  is_i16 alpha -> 0 <= n <= INT32_MAX -> 0 <= i -> i + Z.of_nat k <= n ->
  vsetvl_hw (n - i) = Z.of_nat k ->
  allocated (heap s) (a + i) (Z.of_nat k) ->
  allocated (heap s) (b + i) (Z.of_nat k) ->
  allocated (heap s) (y + i) (Z.of_nat k) ->
  q15_axpy_rvv_body vsetvl_hw vxrm a b y n alpha i s
  = Ok (i + Z.of_nat k)
       (mkState
          (write_lanes (heap s) (y + i)
             (map (out_elt (heap s) a b alpha) (seqZ i (Z.of_nat k))))
          (trace s ++ EvVsetvl (n - i) (Z.of_nat k)
             :: map EvLoad (seqZ (a + i) (Z.of_nat k))
             ++ map EvLoad (seqZ (b + i) (Z.of_nat k))
             ++ map EvStore (seqZ (y + i) (Z.of_nat k)))).
Proof.
  intros Hal Hn Hi Hik Hvl Ha Hb Hy. destruct s as [h tr]. cbn [heap trace] in *.
  unfold q15_axpy_rvv_body.
  rewrite (to_size_t_id n Hn), size_sub_id by lia.
  unfold bind at 1. unfold vsetvl_e16m1, log. cbn [heap trace]. rewrite Hvl.
  unfold vle16_v_i16m1. rewrite Nat2Z.id.
  unfold bind at 1. rewrite load_lanes_run by exact Ha. cbn [heap trace].
  unfold bind at 1. rewrite load_lanes_run by exact Hb. cbn [heap trace].
  rewrite (rvv_pipeline vxrm alpha k); try assumption.
  - rewrite zip_with_seqZ. fold (out_elt h a b alpha).
    unfold bind, vse16_v_i16m1, lanes.
    rewrite take_ge by (rewrite length_map, length_seqZ; lia).
    rewrite store_lanes_run; cbn [heap trace].
    + rewrite length_map, length_seqZ, Z2Nat.id by lia.
      unfold ret. rewrite size_add_id by (unfold INT32_MAX in *; lia).
      f_equal. f_equal. rewrite <- !app_assoc. reflexivity.
    + rewrite length_map, length_seqZ, Z2Nat.id by lia. exact Hy.
  - apply Forall_cell.
  - apply Forall_cell.
  - rewrite length_map, length_seqZ. lia.
  - rewrite length_map, length_seqZ. lia.
Qed.

End BodyRun.

(** ** Traces *)

Lemma stores_app t1 t2 : stores (t1 ++ t2) = stores t1 ++ stores t2.
Proof. apply omap_app. Qed.
Lemma loads_app t1 t2 : loads (t1 ++ t2) = loads t1 ++ loads t2.
Proof. apply omap_app. Qed.
Lemma chunks_app t1 t2 : chunks (t1 ++ t2) = chunks t1 ++ chunks t2.
Proof. apply omap_app. Qed.

Lemma stores_map_store l : stores (map EvStore l) = l.
Proof. induction l as [|p l IH]; [reflexivity|]. cbn. f_equal. exact IH. Qed.
Lemma stores_map_load l : stores (map EvLoad l) = [].
Proof. induction l as [|p l IH]; [reflexivity|]. cbn. exact IH. Qed.
Lemma loads_map_load l : loads (map EvLoad l) = l.
Proof. induction l as [|p l IH]; [reflexivity|]. cbn. f_equal. exact IH. Qed.
Lemma loads_map_store l : loads (map EvStore l) = [].
Proof. induction l as [|p l IH]; [reflexivity|]. cbn. exact IH. Qed.
Lemma chunks_map_load l : chunks (map EvLoad l) = [].
Proof. induction l as [|p l IH]; [reflexivity|]. cbn. exact IH. Qed.
Lemma chunks_map_store l : chunks (map EvStore l) = [].
Proof. induction l as [|p l IH]; [reflexivity|]. cbn. exact IH. Qed.

Lemma stores_vsetvl avl vl t : stores (EvVsetvl avl vl :: t) = stores t.
Proof. reflexivity. Qed.
Lemma loads_vsetvl avl vl t : loads (EvVsetvl avl vl :: t) = loads t.
Proof. reflexivity. Qed.
Lemma chunks_vsetvl avl vl t : chunks (EvVsetvl avl vl :: t) = (avl, vl) :: chunks t.
Proof. reflexivity. Qed.

Lemma ref_trace_S a b y i k :
  ref_trace a b y i (S k)
  = [EvLoad (a + i); EvLoad (b + i); EvStore (y + i)] ++ ref_trace a b y (i + 1) k.
Proof. unfold ref_trace. rewrite seqZ_succ_nat. reflexivity. Qed.

Lemma stores_ref_trace a b y i k :
  stores (ref_trace a b y i k) = seqZ (y + i) (Z.of_nat k).
Proof.
  revert i. induction k as [|k IH]; intros i; [reflexivity|].
  rewrite ref_trace_S, stores_app, IH, seqZ_succ_nat. cbn.
  f_equal. f_equal. lia.
Qed.

Lemma loads_ref_trace a b y i k :
  loads (ref_trace a b y i k)
  = flat_map (fun j => [a + j; b + j]) (seqZ i (Z.of_nat k)).
Proof.
  revert i. induction k as [|k IH]; intros i; [reflexivity|].
  rewrite ref_trace_S, loads_app, IH, seqZ_succ_nat. reflexivity.
Qed.

Lemma chunks_ref_trace a b y i k : chunks (ref_trace a b y i k) = [].
Proof.
  revert i. induction k as [|k IH]; intros i; [reflexivity|].
  rewrite ref_trace_S, chunks_app, IH. reflexivity.
Qed.

Lemma loads_within_ref_trace a b y n i k :
  0 <= i -> i + Z.of_nat k <= n -> loads_within a b n (ref_trace a b y i k).
Proof.
  unfold loads_within. revert i. induction k as [|k IH]; intros i Hi Hik.
  - constructor.
  - rewrite ref_trace_S, loads_app. apply Forall_app. split.
    + cbn. repeat constructor; lia.
    + apply IH; lia.
Qed.

(** ** The reference loop *)

Lemma for_range_S {A} k i (body : Z -> A -> M A) acc s :
  for_range (S k) i body acc s
  = match body i acc s with
    | Ok acc' s' => for_range k (i + 1) body acc' s'
    | Fault => Fault
    | Timeout => Timeout
    end.
Proof. reflexivity. Qed.

Lemma q15_axpy_ref_loop a b y alpha bound (k : nat) i s :
  is_i16 alpha -> 0 <= i -> i + Z.of_nat k <= bound ->
  allocated (heap s) (a + i) (Z.of_nat k) ->
  allocated (heap s) (b + i) (Z.of_nat k) ->
  allocated (heap s) (y + i) (Z.of_nat k) ->
  exists vs,
    length vs = k /\
    for_range k i (q15_axpy_ref_body a b y alpha) tt s
    = Ok tt (mkState (write_lanes (heap s) (y + i) vs)
                     (trace s ++ ref_trace a b y i k)) /\
    (hazard_free y a bound -> alpha = 0 \/ hazard_free y b bound ->
     vs = map (out_elt (heap s) a b alpha) (seqZ i (Z.of_nat k))).
Proof.
  intros Hal. revert i s. induction k as [|k IH]; intros i s Hi Hik Ha Hb Hy.
  - exists []. split; [reflexivity|]. split; [|reflexivity].
    destruct s as [h tr]. cbn. rewrite app_nil_r. reflexivity.
  - apply allocated_tail in Ha as [Ha0 Ha]. apply allocated_tail in Hb as [Hb0 Hb].
    apply allocated_tail in Hy as [Hy0 Hy].
    rewrite for_range_S, q15_axpy_ref_body_run by assumption.
    set (o := out_elt (heap s) a b alpha i).
    set (s1 := mkState (<[y + i := o]> (heap s)) _).
    destruct (IH (i + 1) s1) as (vs & Hlen & Hrun & Hval).
    + lia.
    + lia.
    + rewrite Z.add_assoc. apply allocated_insert. exact Ha.
    + rewrite Z.add_assoc. apply allocated_insert. exact Hb.
    + rewrite Z.add_assoc. apply allocated_insert. exact Hy.
    + exists (o :: vs). split; [cbn; lia|]. split.
      * rewrite Hrun. subst s1. cbn [heap trace write_lanes].
        rewrite ref_trace_S, <- !app_assoc, Z.add_assoc. reflexivity.
      * intros Hza Hzb. rewrite seqZ_succ_nat. cbn [map]. f_equal.
        rewrite (Hval Hza Hzb). apply map_ext_in. intros j Hj.
        apply list_elem_of_In, elem_of_seqZ in Hj.
        subst s1. cbn [heap]. unfold hazard_free in Hza, Hzb.
        apply out_elt_stable; [apply lookup_insert_ne; lia|].
        destruct Hzb as [H0 | Hzb]; [left; exact H0 | right].
        apply lookup_insert_ne. lia.
Qed.

(** The reference loop never asks the hart for a chunk, whatever state it
    starts from and whether or not its accesses are in bounds. *)
Lemma q15_axpy_ref_body_chunks a b y alpha i s u s' :
  q15_axpy_ref_body a b y alpha i tt s = Ok u s' ->
  chunks (trace s') = chunks (trace s).
Proof.
  unfold q15_axpy_ref_body, q15_axpy_ref_acc, bind, load_i16, store_i16,
    mul_i32, add_i32, checked_i32, ret, fault, log.
  destruct s as [h tr]. cbn [heap trace].
  destruct (h !! (a + i)); cbn [heap trace]; [|discriminate].
  destruct (h !! (b + i)); cbn [heap trace]; [|discriminate].
  destruct (in_i32 _); cbn [heap trace]; [|discriminate].
  destruct (in_i32 _); cbn [heap trace]; [|discriminate].
  destruct (h !! (y + i)); cbn [heap trace]; [|discriminate].
  intros H. injection H as _ <-. cbn [trace].
  rewrite !chunks_app. cbn. rewrite !app_nil_r. reflexivity.
Qed.

Lemma q15_axpy_ref_chunks a b y n alpha s u s' :
  q15_axpy_ref a b y n alpha s = Ok u s' ->
  chunks (trace s') = chunks (trace s).
Proof.
  unfold q15_axpy_ref. generalize 0 as i. revert s.
  induction (Z.to_nat n) as [|k IH]; intros s i H.
  - cbn [for_range] in H. unfold ret in H. injection H as _ <-. reflexivity.
  - rewrite for_range_S in H.
    destruct (q15_axpy_ref_body a b y alpha i tt s) as [[] s1| |] eqn:Hb;
      try discriminate.
    rewrite (IH s1 (i + 1) H). eapply q15_axpy_ref_body_chunks. exact Hb.
Qed.

(** ** The chunked loop *)

Lemma while_lt_done fuel n body i s : n <= i -> while_lt fuel n body i s = Ok i s.
Proof.
  intros H. destruct fuel; cbn [while_lt];
    (destruct (i <? n) eqn:Hlt; [apply Z.ltb_lt in Hlt; lia | reflexivity]).
Qed.

Lemma while_lt_step fuel n body i s :
  i < n ->
  while_lt (S fuel) n body i s
  = match body i s with
    | Ok i' s' => while_lt fuel n body i' s'
    | Fault => Fault
    | Timeout => Timeout
    end.
Proof.
  intros H. cbn [while_lt]. destruct (i <? n) eqn:Hlt; [reflexivity|].
  apply Z.ltb_ge in Hlt. lia.
Qed.

Section ChunkedLoop.

Variable vsetvl_hw : Z -> Z.
Variable vxrm : rounding.
Hypothesis vsetvl_hw_ok : vsetvl_ok vsetvl_hw.

Variables a b y n alpha : Z.
Hypothesis alpha_i16 : is_i16 alpha.
Hypothesis n_int : 0 <= n <= INT32_MAX.

Lemma q15_axpy_rvv_loop (fuel : nat) i s :
  0 <= i <= n -> n - i <= Z.of_nat fuel ->
  allocated (heap s) a n -> allocated (heap s) b n -> allocated (heap s) y n ->
  exists vs tr,
    length vs = Z.to_nat (n - i) /\
    while_lt fuel n (q15_axpy_rvv_body vsetvl_hw vxrm a b y n alpha) i s
    = Ok n (mkState (write_lanes (heap s) (y + i) vs) (trace s ++ tr)) /\
    stores tr = seqZ (y + i) (n - i) /\
    loads_within a b n tr /\
    chunks_progress tr /\
    Z.of_nat (length (chunks tr)) <= n - i /\
    (hazard_free y a n -> alpha = 0 \/ hazard_free y b n ->
     vs = map (out_elt (heap s) a b alpha) (seqZ i (n - i))).
Proof.
  revert i s. induction fuel as [|fuel IH]; intros i s Hi Hfuel Ha Hb Hy.
  - assert (i = n) as -> by lia. exists [], [].
    rewrite Z.sub_diag, while_lt_done, app_nil_r by lia.
    destruct s as [h tr]. repeat split; try constructor. cbn. lia.
  - destruct (Z.eq_dec i n) as [->|Hne].
    + exists [], [].
      rewrite Z.sub_diag, while_lt_done, app_nil_r by lia.
      destruct s as [h tr]. repeat split; try constructor. cbn. lia.
    + assert (Hlt : i < n) by lia.
      destruct (vsetvl_hw_ok (n - i)) as [Hvl1 Hvl2]; [lia|].
      set (k := Z.to_nat (vsetvl_hw (n - i))).
      assert (Hk : vsetvl_hw (n - i) = Z.of_nat k) by (subst k; lia).
      clearbody k.
      rewrite while_lt_step by exact Hlt.
      rewrite (q15_axpy_rvv_body_run vsetvl_hw vxrm a b y n alpha i k);
        try assumption; try lia;
        try (apply allocated_sub with (n := n); (assumption || lia)).
      set (c := map (out_elt (heap s) a b alpha) (seqZ i (Z.of_nat k))).
      set (s1 := mkState (write_lanes (heap s) (y + i) c) _).
      assert (Hc : length c = k).
      { subst c. rewrite length_map, length_seqZ. lia. }
      destruct (IH (i + Z.of_nat k) s1) as (vs & tr & Hlen & Hrun & Hst & Hld & Hch & Hcnt & Hval).
      * lia.
      * lia.
      * subst s1. cbn [heap]. apply write_lanes_allocated. exact Ha.
      * subst s1. cbn [heap]. apply write_lanes_allocated. exact Hb.
      * subst s1. cbn [heap]. apply write_lanes_allocated. exact Hy.
      * exists (c ++ vs).
        exists (EvVsetvl (n - i) (Z.of_nat k)
                  :: map EvLoad (seqZ (a + i) (Z.of_nat k))
                  ++ map EvLoad (seqZ (b + i) (Z.of_nat k))
                  ++ map EvStore (seqZ (y + i) (Z.of_nat k)) ++ tr).
        split; [rewrite length_app, Hlen, Hc; lia|].
        split.
        { rewrite Hrun. subst s1. cbn [heap trace].
          rewrite write_lanes_app, Hc, Z.add_assoc. f_equal. f_equal.
          rewrite <- !app_assoc. cbn [app]. rewrite <- !app_assoc. reflexivity. }
        split.
        { rewrite stores_vsetvl, !stores_app, !stores_map_load, stores_map_store, Hst.
          cbn [app].
          rewrite (seqZ_split (y + i) (n - i) (Z.of_nat k)) by lia.
          f_equal. f_equal; lia. }
        split.
        { unfold loads_within in *.
          rewrite loads_vsetvl, !loads_app, !loads_map_load, loads_map_store.
          cbn [app].
          repeat (apply Forall_app; split); try exact Hld.
          - apply Forall_seqZ. intros p Hp. lia.
          - apply Forall_seqZ. intros p Hp. lia. }
        split.
        { unfold chunks_progress in *.
          rewrite chunks_vsetvl, !chunks_app, !chunks_map_load, chunks_map_store.
          cbn [app].
          constructor; [cbn; lia | exact Hch]. }
        split.
        { rewrite chunks_vsetvl, !chunks_app, !chunks_map_load, chunks_map_store.
          cbn [app length]. lia. }
        intros Hza Hzb.
        rewrite (seqZ_split i (n - i) (Z.of_nat k)), map_app by lia.
        fold c. f_equal.
        rewrite (Hval Hza Hzb).
        replace (n - (i + Z.of_nat k)) with (n - i - Z.of_nat k) by lia.
        apply map_ext_in. intros j Hj.
        apply list_elem_of_In, elem_of_seqZ in Hj.
        subst s1. cbn [heap]. unfold hazard_free in Hza, Hzb.
        apply out_elt_stable; [apply write_lanes_lookup_out; rewrite Hc; lia|].
        destruct Hzb as [H0 | Hzb]; [left; exact H0 | right].
        apply write_lanes_lookup_out. rewrite Hc. lia.
Qed.

End ChunkedLoop.

(** ** Whole calls *)

Lemma q15_axpy_ref_done h a b y n alpha :
  is_i16 alpha -> 0 <= n ->
  allocated h a n -> allocated h b n -> allocated h y n ->
  exists s',
    axpy_done h a b y n alpha (q15_axpy_ref a b y n alpha (init h)) s' /\
    trace s' = ref_trace a b y 0 (Z.to_nat n).
Proof.
  intros Hal Hn Ha Hb Hy. unfold q15_axpy_ref.
  destruct (q15_axpy_ref_loop a b y alpha n (Z.to_nat n) 0 (init h))
    as (vs & Hlen & Hrun & Hval); try assumption; try lia;
    try (rewrite Z.add_0_r, Z2Nat.id by lia; assumption).
  rewrite Z.add_0_r, Z2Nat.id in * by lia. cbn [init heap trace app] in *.
  eexists. split; [split; [exact Hrun|]|reflexivity].
  exists vs. cbn [heap trace]. repeat split; try assumption.
  - rewrite stores_ref_trace, Z.add_0_r, Z2Nat.id by lia. reflexivity.
  - apply loads_within_ref_trace; lia.
Qed.

Section WholeCall.

Variable vsetvl_hw : Z -> Z.
Variable vxrm : rounding.
Hypothesis vsetvl_hw_ok : vsetvl_ok vsetvl_hw.

Lemma q15_axpy_rvv_vector_done cfg (fuel : nat) h a b y n alpha :
  fallback_build cfg = false ->
  is_i16 alpha -> 0 <= n <= INT32_MAX -> n <= Z.of_nat fuel ->
  allocated h a n -> allocated h b n -> allocated h y n ->
  exists s',
    axpy_done h a b y n alpha
      (q15_axpy_rvv vsetvl_hw vxrm cfg fuel a b y n alpha (init h)) s' /\
    chunks_progress (trace s') /\
    Z.of_nat (length (chunks (trace s'))) <= n.
Proof.
  intros Hcfg Hal Hn Hfuel Ha Hb Hy. unfold q15_axpy_rvv. rewrite Hcfg.
  rewrite (to_size_t_id n Hn).
  destruct (q15_axpy_rvv_loop vsetvl_hw vxrm vsetvl_hw_ok a b y n alpha Hal Hn
              fuel 0 (init h))
    as (vs & tr & Hlen & Hrun & Hst & Hld & Hch & Hcnt & Hval);
    try assumption; try lia.
  rewrite Z.add_0_r, Z.sub_0_r in *. cbn [init heap trace app] in *.
  unfold bind. rewrite Hrun. unfold ret.
  eexists. split; [split; [reflexivity|]|].
  - exists vs. cbn [heap trace]. repeat split; assumption.
  - cbn [trace]. split; assumption.
Qed.

Lemma q15_axpy_rvv_done cfg (fuel : nat) h a b y n alpha :
  is_i16 alpha -> 0 <= n <= INT32_MAX -> n <= Z.of_nat fuel ->
  allocated h a n -> allocated h b n -> allocated h y n ->
  exists s',
    axpy_done h a b y n alpha
      (q15_axpy_rvv vsetvl_hw vxrm cfg fuel a b y n alpha (init h)) s'.
Proof.
  intros Hal Hn Hfuel Ha Hb Hy.
  destruct (fallback_build cfg) eqn:Hcfg.
  - destruct (q15_axpy_ref_done h a b y n alpha) as (s' & Hdone & _);
      try assumption; try lia.
    exists s'. unfold q15_axpy_rvv. rewrite Hcfg. exact Hdone.
  - destruct (q15_axpy_rvv_vector_done cfg fuel h a b y n alpha) as (s' & Hdone & _);
      try assumption.
    exists s'. exact Hdone.
Qed.

End WholeCall.

Lemma axpy_done_cell h a b y n alpha r s' i :
  axpy_done h a b y n alpha r s' ->
  hazard_free y a n -> alpha = 0 \/ hazard_free y b n -> 0 <= i < n ->
  cell (heap s') (y + i) = out_elt h a b alpha i.
Proof.
  intros (_ & vs & _ & Hheap & _ & _ & Hval) Hza Hzb Hi.
  rewrite Hheap, (Hval Hza Hzb).
  replace (y + i) with (y + Z.of_nat (Z.to_nat i)) by lia.
  apply cell_write_lanes_in; [|apply out_elt_range].
  rewrite list_lookup_fmap, lookup_seqZ_lt by lia. cbn. f_equal. f_equal. lia.
Qed.

Lemma axpy_done_frame h a b y n alpha r s' p :
  axpy_done h a b y n alpha r s' -> 0 <= n ->
  ~ (y <= p < y + n) -> heap s' !! p = h !! p.
Proof.
  intros (_ & vs & Hlen & Hheap & _) Hn Hp.
  rewrite Hheap. apply write_lanes_lookup_out. rewrite Hlen. lia.
Qed.

Lemma axpy_done_heap_eq h a b y n alpha r1 s1 r2 s2 :
  axpy_done h a b y n alpha r1 s1 -> axpy_done h a b y n alpha r2 s2 ->
  hazard_free y a n -> alpha = 0 \/ hazard_free y b n -> heap s1 = heap s2.
Proof.
  intros (_ & vs1 & _ & Hh1 & _ & _ & Hv1) (_ & vs2 & _ & Hh2 & _ & _ & Hv2) Hza Hzb.
  rewrite Hh1, Hh2, (Hv1 Hza Hzb), (Hv2 Hza Hzb). reflexivity.
Qed.

(** ** The comparison loop *)

Lemma read_array_S h p (k : nat) :
  read_array h p (Z.of_nat (S k)) = cell h p :: read_array h (p + 1) (Z.of_nat k).
Proof. unfold read_array. rewrite seqZ_succ_nat. reflexivity. Qed.

Lemma read_array_O h p : read_array h p (Z.of_nat 0) = [].
Proof. reflexivity. Qed.

Lemma max_abs_diff_cons x y r t :
  max_abs_diff (x :: r) (y :: t) = Z.max (Z.abs (x - y)) (max_abs_diff r t).
Proof. reflexivity. Qed.

(** [max_abs_diff] on two arrays of a heap is their maximum absolute
    difference: non-negative, an upper bound of every per-index difference,
    and attained at some index unless the arrays are empty. *)
Lemma max_abs_diff_is_max h ref test (k : nat) :
  let m := max_abs_diff (read_array h ref (Z.of_nat k)) (read_array h test (Z.of_nat k)) in
  0 <= m /\
  (forall j, 0 <= j < Z.of_nat k -> Z.abs (cell h (ref + j) - cell h (test + j)) <= m) /\
  (k = O -> m = 0) /\
  (k <> O ->
   exists j, 0 <= j < Z.of_nat k /\ m = Z.abs (cell h (ref + j) - cell h (test + j))).
Proof.
  revert ref test. induction k as [|k IH]; intros ref test m.
  - subst m. rewrite !read_array_O. cbn.
    split; [lia|]. split; [intros j Hj; lia|]. split; [reflexivity|].
    intros H. congruence.
  - subst m. rewrite !read_array_S, max_abs_diff_cons.
    destruct (IH (ref + 1) (test + 1)) as (Hge & Hub & Hz & Hatt).
    set (m' := max_abs_diff _ _) in *.
    split; [lia|]. split; [|split; [intros H; discriminate|]].
    + intros j Hj. destruct (Z.eq_dec j 0) as [->|Hj0].
      * rewrite !Z.add_0_r. lia.
      * specialize (Hub (j - 1)).
        replace (ref + 1 + (j - 1)) with (ref + j) in Hub by lia.
        replace (test + 1 + (j - 1)) with (test + j) in Hub by lia. lia.
    + intros _.
      destruct (Z.max_spec (Z.abs (cell h ref - cell h test)) m') as [[Hlt ->]|[Hle ->]].
      * destruct k as [|k]; [specialize (Hz eq_refl); lia|].
        destruct Hatt as (j & Hj & Hm); [discriminate|].
        exists (j + 1). split; [lia|].
        replace (ref + (j + 1)) with (ref + 1 + j) by lia.
        replace (test + (j + 1)) with (test + 1 + j) by lia. exact Hm.
      * exists 0. split; [lia|]. rewrite !Z.add_0_r. reflexivity.
Qed.

Lemma verify_equal_body_run ref test i ok md s :
  is_Some (heap s !! (ref + i)) -> is_Some (heap s !! (test + i)) ->
  let d := Z.abs (cell (heap s) (ref + i) - cell (heap s) (test + i)) in
  verify_equal_body ref test i (ok, md) s
  = Ok (if d =? 0 then ok else 0, Z.max md d)
       (mkState (heap s) (trace s ++ [EvLoad (ref + i); EvLoad (test + i)])).
Proof.
  intros Hr Ht d. destruct s as [h tr]. cbn [heap trace] in *.
  unfold verify_equal_body.
  unfold bind at 1. rewrite load_i16_run by exact Hr. cbn [heap trace].
  unfold bind at 1. rewrite load_i16_run by exact Ht. cbn [heap trace].
  pose proof (cell_range h (ref + i)) as Hrr. pose proof (cell_range h (test + i)) as Htr.
  unfold is_i16, INT16_MIN, INT16_MAX in Hrr, Htr.
  unfold bind at 1. unfold sub_i32.
  rewrite checked_i32_run by (unfold is_i32, INT32_MIN, INT32_MAX; lia).
  set (d0 := cell h (ref + i) - cell h (test + i)) in *.
  assert (Hd : (if d0 <? 0 then neg_i32 d0 else ret d0)
                 (mkState h ((tr ++ [EvLoad (ref + i)]) ++ [EvLoad (test + i)]))
               = Ok d (mkState h ((tr ++ [EvLoad (ref + i)]) ++ [EvLoad (test + i)]))).
  { subst d. destruct (d0 <? 0) eqn:E.
    - apply Z.ltb_lt in E. unfold neg_i32.
      rewrite checked_i32_run by (unfold is_i32, INT32_MIN, INT32_MAX; lia).
      f_equal. lia.
    - apply Z.ltb_ge in E. unfold ret. f_equal. lia. }
  unfold bind. rewrite Hd. unfold ret. rewrite <- app_assoc. cbn [app].
  f_equal. f_equal.
  - destruct (d =? 0); reflexivity.
  - destruct (md <? d) eqn:E; [apply Z.ltb_lt in E | apply Z.ltb_ge in E]; lia.
Qed.

Lemma verify_equal_loop ref test (k : nat) i ok md s :
  0 <= md ->
  allocated (heap s) (ref + i) (Z.of_nat k) ->
  allocated (heap s) (test + i) (Z.of_nat k) ->
  exists ok' tr,
    for_range k i (verify_equal_body ref test) (ok, md) s
    = Ok (ok', Z.max md (max_abs_diff (read_array (heap s) (ref + i) (Z.of_nat k))
                                      (read_array (heap s) (test + i) (Z.of_nat k))))
         (mkState (heap s) (trace s ++ tr)) /\
    stores tr = [] /\
    (ok' = ok \/ ok' = 0) /\
    (ok' = 1 <->
     ok = 1 /\ forall j, 0 <= j < Z.of_nat k ->
                 cell (heap s) (ref + i + j) = cell (heap s) (test + i + j)).
Proof.
  revert i ok md s. induction k as [|k IH]; intros i ok md s Hmd Hr Ht.
  - exists ok, []. destruct s as [h tr]. cbn [for_range heap trace].
    unfold ret. rewrite app_nil_r, !read_array_O. cbn [max_abs_diff zip_with foldr].
    rewrite Z.max_l by lia.
    split; [reflexivity|]. split; [reflexivity|]. split; [left; reflexivity|].
    split; [intros H; split; [exact H | intros j Hj; lia] | intros [H _]; exact H].
  - apply allocated_tail in Hr as [Hr0 Hr]. apply allocated_tail in Ht as [Ht0 Ht].
    rewrite for_range_S, verify_equal_body_run by assumption.
    set (d := Z.abs (cell (heap s) (ref + i) - cell (heap s) (test + i))).
    set (s1 := mkState (heap s) _).
    destruct (IH (i + 1) (if d =? 0 then ok else 0) (Z.max md d) s1)
      as (ok' & tr & Hrun & Hst & Hok & Hiff).
    + lia.
    + rewrite Z.add_assoc. exact Hr.
    + rewrite Z.add_assoc. exact Ht.
    + exists ok', ([EvLoad (ref + i); EvLoad (test + i)] ++ tr).
      split.
      * rewrite Hrun. subst s1. cbn [heap trace].
        rewrite !read_array_S, max_abs_diff_cons, <- !app_assoc, !Z.add_assoc.
        fold d. f_equal. f_equal. lia.
      * split; [rewrite stores_app, Hst; reflexivity|].
        split; [destruct (d =? 0); tauto|].
        subst s1. cbn [heap] in Hiff. rewrite Hiff. clear Hiff Hrun.
        destruct (d =? 0) eqn:E; [apply Z.eqb_eq in E | apply Z.eqb_neq in E].
        -- split; intros [Hok1 Hall]; (split; [exact Hok1|]); intros j Hj.
           ++ destruct (Z.eq_dec j 0) as [->|Hj0].
              ** rewrite !Z.add_0_r. subst d. lia.
              ** specialize (Hall (j - 1)).
                 replace (ref + (i + 1) + (j - 1)) with (ref + i + j) in Hall by lia.
                 replace (test + (i + 1) + (j - 1)) with (test + i + j) in Hall by lia.
                 apply Hall. lia.
           ++ specialize (Hall (j + 1)).
              replace (ref + i + (j + 1)) with (ref + (i + 1) + j) in Hall by lia.
              replace (test + i + (j + 1)) with (test + (i + 1) + j) in Hall by lia.
              apply Hall. lia.
        -- split; [intros [H _]; discriminate|].
           intros [_ Hall]. exfalso. apply E. subst d.
           specialize (Hall 0). rewrite !Z.add_0_r in Hall. rewrite Hall by lia. lia.
Qed.

Lemma verify_equal_run h ref test n :
  0 <= n -> allocated h ref n -> allocated h test n ->
  exists ok tr,
    verify_equal ref test n (init h)
    = Ok (ok, max_abs_diff (read_array h ref n) (read_array h test n)) (mkState h tr) /\
    stores tr = [] /\
    (ok = 1 \/ ok = 0) /\
    (ok = 1 <-> forall i, 0 <= i < n -> cell h (ref + i) = cell h (test + i)).
Proof.
  intros Hn Hr Ht. unfold verify_equal.
  destruct (verify_equal_loop ref test (Z.to_nat n) 0 1 0 (init h))
    as (ok & tr & Hrun & Hst & Hok & Hiff);
    try lia; try (rewrite Z.add_0_r, Z2Nat.id by lia; assumption).
  rewrite !Z.add_0_r, Z2Nat.id in * by lia. cbn [init heap trace app] in *.
  pose proof (max_abs_diff_is_max h ref test (Z.to_nat n)) as (Hge & _).
  rewrite Z2Nat.id in Hge by lia. rewrite Z.max_r in Hrun by exact Hge.
  exists ok, tr. split; [exact Hrun|]. split; [exact Hst|]. split; [exact Hok|].
  rewrite Hiff. split.
  - intros [_ Hall]. exact Hall.
  - intros Hall. split; [reflexivity | exact Hall].
Qed.

(** ** Facts about the concrete inputs *)

Lemma allocatedb_sound h p n : allocatedb h p n = true -> allocated h p n.
Proof.
  unfold allocatedb, allocated. intros H j Hj.
  rewrite forallb_forall in H. specialize (H j).
  destruct (h !! (p + j)); [eauto|].
  assert (false = true); [|discriminate].
  apply H. apply list_elem_of_In, elem_of_seqZ. lia.
Qed.

Lemma vsetvl_vlmax_ok vlmax : 1 <= vlmax -> vsetvl_ok (vsetvl_vlmax vlmax).
Proof. intros H avl Havl. unfold vsetvl_vlmax. lia. Qed.

(** Gain 2 on the demo arrays: saturation, a value just in range, and the
    plain case [100 + 2 * 10 = 120]; the cell after [y] keeps its 9. *)
Example q15_axpy_ref_demo :
  outputs (q15_axpy_ref 0 100 200 5 2 (init demo_heap)) 200 6
  = Some [32767; 32766; 120; 7; 9; 9].
Proof. vm_compute. reflexivity. Qed.

(** Gain -32768: lower saturation. *)
Example q15_axpy_ref_demo_lower :
  outputs (q15_axpy_ref 0 100 200 5 (-32768) (init demo_heap)) 200 5
  = Some [-32768; -32768; -32768; -32763; -32761].
Proof. vm_compute. reflexivity. Qed.

(** Five elements on a hart with two lanes: chunks of 2, 2 and 1. *)
Example q15_axpy_rvv_demo :
  let r := q15_axpy_rvv (vsetvl_vlmax 2) RNE vector_build 3 0 100 200 5 2 (init demo_heap) in
  outputs r 200 6 = Some [32767; 32766; 120; 7; 9; 9] /\
  requested r = Some [(5, 2); (3, 2); (1, 1)].
Proof. vm_compute. split; reflexivity. Qed.

(** Two units of fuel do not cover three chunks. *)
Example q15_axpy_rvv_demo_short_fuel :
  q15_axpy_rvv (vsetvl_vlmax 2) RNE vector_build 2 0 100 200 5 2 (init demo_heap)
  = Timeout.
Proof. vm_compute. reflexivity. Qed.

(** A hart that answers 0 never advances the cursor; one that answers more
    than was asked runs off the arrays. *)
Example q15_axpy_rvv_stuck_hart :
  q15_axpy_rvv (fun _ => 0) RNE vector_build 50 0 100 200 5 2 (init demo_heap)
  = Timeout.
Proof. vm_compute. reflexivity. Qed.

Example q15_axpy_rvv_overrunning_hart :
  q15_axpy_rvv (fun _ => 8) RNE vector_build 50 0 100 200 5 2 (init demo_heap)
  = Fault.
Proof. vm_compute. reflexivity. Qed.

(** Reading past the allocated cells is a fault of the reference loop too. *)
Example q15_axpy_ref_out_of_bounds :
  q15_axpy_ref 0 100 200 7 2 (init demo_heap) = Fault.
Proof. vm_compute. reflexivity. Qed.

(** Why the layout matters: when [y = a + 1] the reference loop reads the
    cell it has just written, the chunked loop has already loaded it. *)
Example q15_axpy_overlap_hazard :
  outputs (q15_axpy_ref 0 100 1 2 0 (init overlap_heap)) 1 2 = Some [1; 1] /\
  outputs (q15_axpy_rvv (vsetvl_vlmax 2) RNE vector_build 2 0 100 1 2 0
             (init overlap_heap)) 1 2 = Some [1; 2] /\
  ~ hazard_free 1 0 2.
Proof.
  split; [vm_compute; reflexivity|]. split; [vm_compute; reflexivity|].
  unfold hazard_free. lia.
Qed.

Example verify_equal_demo :
  verify_equal 0 100 5 (init demo_heap)
  = Ok (0, 65535)
       (mkState demo_heap
          [EvLoad 0; EvLoad 100; EvLoad 1; EvLoad 101; EvLoad 2; EvLoad 102;
           EvLoad 3; EvLoad 103; EvLoad 4; EvLoad 104]).
Proof. vm_compute. reflexivity. Qed.

Ltac demo_allocated := apply allocatedb_sound; vm_compute; reflexivity.
Ltac demo_range :=
  unfold is_i16, is_i32, INT16_MIN, INT16_MAX, INT32_MIN, INT32_MAX; lia.

(** * The claims *)

(** C1. For every [n >= 0], arrays [a], [b] of length [n] and 16-bit
    [alpha], a call of [q15_axpy_rvv] (in any build, on any hart whose
    [vsetvl] answers within [1 .. avl]) completes and leaves the heap that
    [q15_axpy_ref] leaves on the same inputs: the outputs agree bit for bit,
    element by element.  The arrays are laid out as the caller contract
    asks: no input cell is read after the call has written it. *)
Theorem q15_axpy_rvv_matches_ref vsetvl_hw vxrm cfg (fuel : nat) h a b y n alpha :
  vsetvl_ok vsetvl_hw ->
  is_i16 alpha -> 0 <= n <= INT32_MAX -> n <= Z.of_nat fuel ->
  allocated h a n -> allocated h b n -> allocated h y n ->
  hazard_free y a n -> hazard_free y b n ->
  exists s_rvv s_ref,
    q15_axpy_rvv vsetvl_hw vxrm cfg fuel a b y n alpha (init h) = Ok tt s_rvv /\
    q15_axpy_ref a b y n alpha (init h) = Ok tt s_ref /\
    heap s_rvv = heap s_ref /\
    read_array (heap s_rvv) y n = read_array (heap s_ref) y n.
Proof.
  intros Hhw Hal Hn Hfuel Ha Hb Hy Hza Hzb.
  destruct (q15_axpy_rvv_done vsetvl_hw vxrm Hhw cfg fuel h a b y n alpha)
    as (s1 & H1); try assumption.
  destruct (q15_axpy_ref_done h a b y n alpha) as (s2 & H2 & _);
    try assumption; try lia.
  exists s1, s2.
  assert (Heq : heap s1 = heap s2).
  { eapply axpy_done_heap_eq; [exact H1 | exact H2 | exact Hza | right; exact Hzb]. }
  split; [apply H1|]. split; [apply H2|]. split; [exact Heq|].
  rewrite Heq. reflexivity.
Qed.

Lemma q15_axpy_rvv_matches_ref_witness :
  exists s_rvv s_ref,
    q15_axpy_rvv (vsetvl_vlmax 2) RNU vector_build 5 0 100 200 5 3 (init demo_heap)
    = Ok tt s_rvv /\
    q15_axpy_ref 0 100 200 5 3 (init demo_heap) = Ok tt s_ref /\
    heap s_rvv = heap s_ref /\
    read_array (heap s_rvv) 200 5 = read_array (heap s_ref) 200 5.
Proof.
  apply q15_axpy_rvv_matches_ref.
  - apply vsetvl_vlmax_ok. lia.
  - demo_range.
  - demo_range.
  - lia.
  - demo_allocated.
  - demo_allocated.
  - demo_allocated.
  - unfold hazard_free. lia.
  - unfold hazard_free. lia.
Defined.

(** C2. For every [n >= 0], arrays [a], [b] of length [n] and 16-bit
    [alpha], [q15_axpy_ref] completes and, for every [i < n], leaves in
    [y[i]] the clamp to [[-32768, 32767]] of [a[i] + alpha * b[i]], the sum
    and product being the exact integers (they fit [int32_t]): above 32767
    gives 32767, below -32768 gives -32768, in range passes unchanged. *)
Theorem q15_axpy_ref_contract h a b y n alpha :
  is_i16 alpha -> 0 <= n ->
  allocated h a n -> allocated h b n -> allocated h y n ->
  hazard_free y a n -> hazard_free y b n ->
  exists s',
    q15_axpy_ref a b y n alpha (init h) = Ok tt s' /\
    forall i, 0 <= i < n ->
      let acc := cell h (a + i) + alpha * cell h (b + i) in
      let yi := cell (heap s') (y + i) in
      is_i32 acc /\
      yi = clamp acc (-32768) 32767 /\
      (32767 < acc -> yi = 32767) /\
      (acc < -32768 -> yi = -32768) /\
      (-32768 <= acc <= 32767 -> yi = acc).
Proof.
  intros Hal Hn Ha Hb Hy Hza Hzb.
  destruct (q15_axpy_ref_done h a b y n alpha) as (s' & Hdone & _); try assumption.
  exists s'. split; [apply Hdone|]. intros i Hi acc yi.
  assert (Hyi : yi = clamp acc (-32768) 32767).
  { subst yi. rewrite (axpy_done_cell _ _ _ _ _ _ _ _ i Hdone Hza (or_intror Hzb) Hi).
    unfold out_elt, q15_elt. apply sat_q15_scalar_clamp. }
  split; [apply acc_is_i32; (exact Hal || apply cell_range)|].
  split; [exact Hyi|]. rewrite Hyi. unfold clamp.
  repeat split; intros Hacc.
  - destruct (32767 <? acc) eqn:E; [reflexivity|]. apply Z.ltb_ge in E. lia.
  - destruct (32767 <? acc) eqn:E; [apply Z.ltb_lt in E; lia|].
    destruct (acc <? -32768) eqn:E'; [reflexivity|]. apply Z.ltb_ge in E'. lia.
  - destruct (32767 <? acc) eqn:E; [apply Z.ltb_lt in E; lia|].
    destruct (acc <? -32768) eqn:E'; [apply Z.ltb_lt in E'; lia|]. reflexivity.
Qed.

Lemma q15_axpy_ref_contract_witness :
  exists s',
    q15_axpy_ref 0 100 200 5 3 (init demo_heap) = Ok tt s' /\
    forall i, 0 <= i < 5 ->
      let acc := cell demo_heap (0 + i) + 3 * cell demo_heap (100 + i) in
      let yi := cell (heap s') (200 + i) in
      is_i32 acc /\
      yi = clamp acc (-32768) 32767 /\
      (32767 < acc -> yi = 32767) /\
      (acc < -32768 -> yi = -32768) /\
      (-32768 <= acc <= 32767 -> yi = acc).
Proof.
  apply q15_axpy_ref_contract.
  - demo_range.
  - lia.
  - demo_allocated.
  - demo_allocated.
  - demo_allocated.
  - unfold hazard_free. lia.
  - unfold hazard_free. lia.
Defined.

(** C3. In a build where the vector capability is not available (the
    preprocessor takes the fallback branch), [q15_axpy_rvv] is
    [q15_axpy_ref]: on every input and from every state it has the same
    outcome, the same final memory and the same memory accesses; no chunk is
    ever requested from the hart. *)
Theorem q15_axpy_rvv_fallback vsetvl_hw vxrm cfg (fuel : nat) a b y n alpha s :
  fallback_build cfg = true ->
  q15_axpy_rvv vsetvl_hw vxrm cfg fuel a b y n alpha s = q15_axpy_ref a b y n alpha s /\
  forall s', q15_axpy_rvv vsetvl_hw vxrm cfg fuel a b y n alpha s = Ok tt s' ->
             chunks (trace s') = chunks (trace s).
Proof.
  intros Hcfg. unfold q15_axpy_rvv. rewrite Hcfg. split; [reflexivity|].
  intros s' H. eapply q15_axpy_ref_chunks. exact H.
Qed.

Lemma q15_axpy_rvv_fallback_witness :
  q15_axpy_rvv (vsetvl_vlmax 2) RNU scalar_build 0 0 100 200 5 3 (init demo_heap)
  = q15_axpy_ref 0 100 200 5 3 (init demo_heap) /\
  forall s',
    q15_axpy_rvv (vsetvl_vlmax 2) RNU scalar_build 0 0 100 200 5 3 (init demo_heap)
    = Ok tt s' ->
    chunks (trace s') = chunks (trace (init demo_heap)).
Proof. apply q15_axpy_rvv_fallback. reflexivity. Defined.

(** C4. For 16-bit [a[i]], [b[i]] and [alpha] the exact value
    [a[i] + alpha * b[i]] lies strictly inside the [int32_t] range, with
    magnitude at most [2^30 + 2^15]; so the scalar accumulator is computed
    without signed overflow (the call of [q15_axpy_ref_acc] never faults),
    and the widened lane of the vector path holds the same exact value (the
    32-bit add does not wrap). *)
Theorem acc_never_overflows ai alpha bi :
  is_i16 ai -> is_i16 alpha -> is_i16 bi ->
  let v := ai + alpha * bi in
  INT32_MIN < v < INT32_MAX /\
  Z.abs v <= 2 ^ 30 + 2 ^ 15 /\
  (forall s, q15_axpy_ref_acc ai alpha bi s = Ok v s) /\
  vadd_vv_i32m2 (vwadd_vx_i32m2 [ai] 0 1) (vwmul_vx_i32m2 [bi] alpha 1) 1 = [v].
Proof.
  intros Ha Hal Hb v. pose proof (acc_bounds ai alpha bi Ha Hal Hb) as Hv.
  pose proof (prod_is_i32 alpha bi Hal Hb) as Hp.
  pose proof (acc_is_i32 ai alpha bi Ha Hal Hb) as Hacc.
  fold v in Hv, Hacc.
  change (2 ^ 30) with 1073741824 in *. change (2 ^ 15) with 32768 in *.
  split; [unfold INT32_MIN, INT32_MAX; lia|].
  split; [lia|].
  split; [intros s; apply q15_axpy_ref_acc_run; assumption|].
  assert (Hai : is_i32 ai).
  { unfold is_i16, is_i32, INT16_MIN, INT16_MAX, INT32_MIN, INT32_MAX in *. lia. }
  unfold vadd_vv_i32m2, vwadd_vx_i32m2, vwmul_vx_i32m2, lanes.
  change (Z.to_nat 1) with 1%nat. cbn [firstn map zip_with].
  rewrite Z.add_0_r, (sint32_id ai Hai), (Z.mul_comm bi alpha), (sint32_id _ Hp).
  fold v. rewrite (sint32_id v Hacc). reflexivity.
Qed.

Lemma acc_never_overflows_witness :
  let v := 32767 + (-32768) * (-32768) in
  INT32_MIN < v < INT32_MAX /\
  Z.abs v <= 2 ^ 30 + 2 ^ 15 /\
  (forall s, q15_axpy_ref_acc 32767 (-32768) (-32768) s = Ok v s) /\
  vadd_vv_i32m2 (vwadd_vx_i32m2 [32767] 0 1) (vwmul_vx_i32m2 [-32768] (-32768) 1) 1
  = [v].
Proof. apply acc_never_overflows; demo_range. Defined.

(** C5. Upper saturation boundary: at an index [i] with [a[i] = 32767],
    [b[i] = 32767], and with [alpha = 32767], the exact accumulator is
    1073709056, above 32767, and both evaluators leave [y[i] = 32767]. *)
Theorem upper_saturation vsetvl_hw vxrm cfg (fuel : nat) h a b y n i :
  vsetvl_ok vsetvl_hw ->
  0 <= n <= INT32_MAX -> n <= Z.of_nat fuel ->
  allocated h a n -> allocated h b n -> allocated h y n ->
  hazard_free y a n -> hazard_free y b n ->
  0 <= i < n -> cell h (a + i) = 32767 -> cell h (b + i) = 32767 ->
  (forall s, q15_axpy_ref_acc 32767 32767 32767 s = Ok 1073709056 s) /\
  32767 < 1073709056 /\
  exists s_ref s_rvv,
    q15_axpy_ref a b y n 32767 (init h) = Ok tt s_ref /\
    q15_axpy_rvv vsetvl_hw vxrm cfg fuel a b y n 32767 (init h) = Ok tt s_rvv /\
    cell (heap s_ref) (y + i) = 32767 /\
    cell (heap s_rvv) (y + i) = 32767.
Proof.
  intros Hhw Hn Hfuel Ha Hb Hy Hza Hzb Hi Hai Hbi.
  assert (Hal : is_i16 32767) by demo_range.
  split; [intros s; apply (q15_axpy_ref_acc_run 32767 32767 32767 s Hal Hal Hal)|].
  split; [lia|].
  destruct (q15_axpy_ref_done h a b y n 32767) as (s1 & H1 & _);
    try assumption; try lia.
  destruct (q15_axpy_rvv_done vsetvl_hw vxrm Hhw cfg fuel h a b y n 32767)
    as (s2 & H2); try assumption.
  exists s1, s2. split; [apply H1|]. split; [apply H2|].
  rewrite (axpy_done_cell _ _ _ _ _ _ _ _ i H1 Hza (or_intror Hzb) Hi),
    (axpy_done_cell _ _ _ _ _ _ _ _ i H2 Hza (or_intror Hzb) Hi).
  unfold out_elt. rewrite Hai, Hbi. split; reflexivity.
Qed.

Lemma upper_saturation_witness :
  (forall s, q15_axpy_ref_acc 32767 32767 32767 s = Ok 1073709056 s) /\
  32767 < 1073709056 /\
  exists s_ref s_rvv,
    q15_axpy_ref 0 100 200 5 32767 (init demo_heap) = Ok tt s_ref /\
    q15_axpy_rvv (vsetvl_vlmax 2) RNU vector_build 5 0 100 200 5 32767 (init demo_heap)
    = Ok tt s_rvv /\
    cell (heap s_ref) (200 + 0) = 32767 /\
    cell (heap s_rvv) (200 + 0) = 32767.
Proof.
  apply upper_saturation.
  - apply vsetvl_vlmax_ok. lia.
  - demo_range.
  - lia.
  - demo_allocated.
  - demo_allocated.
  - demo_allocated.
  - unfold hazard_free. lia.
  - unfold hazard_free. lia.
  - lia.
  - reflexivity.
  - reflexivity.
Defined.

(** C6. Zero-gain identity: with [alpha = 0], for every [n >= 0] and arrays
    [a], [b] of length [n], both evaluators leave [y[i] = a[i]] for every
    [i < n], [a[i]] being the content before the call; where [b] lies does
    not matter. *)
Theorem zero_gain_identity vsetvl_hw vxrm cfg (fuel : nat) h a b y n :
  vsetvl_ok vsetvl_hw ->
  0 <= n <= INT32_MAX -> n <= Z.of_nat fuel ->
  allocated h a n -> allocated h b n -> allocated h y n ->
  hazard_free y a n ->
  exists s_ref s_rvv,
    q15_axpy_ref a b y n 0 (init h) = Ok tt s_ref /\
    q15_axpy_rvv vsetvl_hw vxrm cfg fuel a b y n 0 (init h) = Ok tt s_rvv /\
    forall i, 0 <= i < n ->
      cell (heap s_ref) (y + i) = cell h (a + i) /\
      cell (heap s_rvv) (y + i) = cell h (a + i).
Proof.
  intros Hhw Hn Hfuel Ha Hb Hy Hza.
  assert (Hal : is_i16 0) by demo_range.
  destruct (q15_axpy_ref_done h a b y n 0) as (s1 & H1 & _);
    try assumption; try lia.
  destruct (q15_axpy_rvv_done vsetvl_hw vxrm Hhw cfg fuel h a b y n 0)
    as (s2 & H2); try assumption.
  exists s1, s2. split; [apply H1|]. split; [apply H2|]. intros i Hi.
  rewrite (axpy_done_cell _ _ _ _ _ _ _ _ i H1 Hza (or_introl eq_refl) Hi),
    (axpy_done_cell _ _ _ _ _ _ _ _ i H2 Hza (or_introl eq_refl) Hi).
  unfold out_elt. rewrite q15_elt_zero_gain by apply cell_range.
  split; reflexivity.
Qed.

Lemma zero_gain_identity_witness :
  exists s_ref s_rvv,
    q15_axpy_ref 0 100 200 5 0 (init demo_heap) = Ok tt s_ref /\
    q15_axpy_rvv (vsetvl_vlmax 2) RNU vector_build 5 0 100 200 5 0 (init demo_heap)
    = Ok tt s_rvv /\
    forall i, 0 <= i < 5 ->
      cell (heap s_ref) (200 + i) = cell demo_heap (0 + i) /\
      cell (heap s_rvv) (200 + i) = cell demo_heap (0 + i).
Proof.
  apply zero_gain_identity.
  - apply vsetvl_vlmax_ok. lia.
  - demo_range.
  - lia.
  - demo_allocated.
  - demo_allocated.
  - demo_allocated.
  - unfold hazard_free. lia.
Defined.

Lemma write_lanes_inj h p (v1 v2 : list Z) :
  length v1 = length v2 -> write_lanes h p v1 = write_lanes h p v2 -> v1 = v2.
Proof.
  intros Hlen Heq. apply list_eq. intros i.
  destruct (decide (i < length v1)%nat) as [Hlt|Hge].
  - destruct (lookup_lt_is_Some_2 v1 i Hlt) as [x1 H1].
    destruct (lookup_lt_is_Some_2 v2 i) as [x2 H2]; [lia|].
    pose proof (write_lanes_lookup_in h p v1 i x1 H1) as L1.
    pose proof (write_lanes_lookup_in h p v2 i x2 H2) as L2.
    rewrite Heq, L2 in L1. rewrite H1, H2. symmetry. exact L1.
  - rewrite !lookup_ge_None_2 by lia. reflexivity.
Qed.

Section ChunkedValues.

Variable vsetvl_hw : Z -> Z.
Variable vxrm : rounding.
Hypothesis vsetvl_hw_ok : vsetvl_ok vsetvl_hw.

Variables a b y n alpha : Z.
Hypothesis alpha_i16 : is_i16 alpha.
Hypothesis n_int : 0 <= n <= INT32_MAX.

(** Whatever the layout, the chunked loop overwrites [y[i..n-1]] with 16-bit
    values. *)
Lemma q15_axpy_rvv_loop_values (fuel : nat) i s :
  0 <= i <= n -> n - i <= Z.of_nat fuel ->
  allocated (heap s) a n -> allocated (heap s) b n -> allocated (heap s) y n ->
  exists vs tr,
    while_lt fuel n (q15_axpy_rvv_body vsetvl_hw vxrm a b y n alpha) i s
    = Ok n (mkState (write_lanes (heap s) (y + i) vs) tr) /\
    length vs = Z.to_nat (n - i) /\
    Forall is_i16 vs.
Proof.
  revert i s. induction fuel as [|fuel IH]; intros i s Hi Hfuel Ha Hb Hy.
  - assert (i = n) as -> by lia. exists [], (trace s).
    rewrite Z.sub_diag, while_lt_done by lia. destruct s as [h tr].
    repeat split. constructor.
  - destruct (Z.eq_dec i n) as [->|Hne].
    + exists [], (trace s).
      rewrite Z.sub_diag, while_lt_done by lia. destruct s as [h tr].
      repeat split. constructor.
    + assert (Hlt : i < n) by lia.
      destruct (vsetvl_hw_ok (n - i)) as [Hvl1 Hvl2]; [lia|].
      set (k := Z.to_nat (vsetvl_hw (n - i))).
      assert (Hk : vsetvl_hw (n - i) = Z.of_nat k) by (subst k; lia).
      clearbody k.
      rewrite while_lt_step by exact Hlt.
      rewrite (q15_axpy_rvv_body_run vsetvl_hw vxrm a b y n alpha i k);
        try assumption; try lia;
        try (apply allocated_sub with (n := n); (assumption || lia)).
      set (c := map (out_elt (heap s) a b alpha) (seqZ i (Z.of_nat k))).
      set (s1 := mkState (write_lanes (heap s) (y + i) c) _).
      assert (Hc : length c = k).
      { subst c. rewrite length_map, length_seqZ. lia. }
      destruct (IH (i + Z.of_nat k) s1) as (vs & tr & Hrun & Hlen & Hvs);
        try lia;
        try (subst s1; cbn [heap]; apply write_lanes_allocated; assumption).
      exists (c ++ vs), tr. split.
      * rewrite Hrun. subst s1. cbn [heap].
        rewrite write_lanes_app, Hc, Z.add_assoc. reflexivity.
      * split; [rewrite length_app, Hlen, Hc; lia|].
        apply Forall_app. split; [|exact Hvs].
        subst c. clear. induction (seqZ i (Z.of_nat k)) as [|j l IHl];
          constructor; [apply out_elt_range | exact IHl].
Qed.

End ChunkedValues.

(** C7. On a hart whose every chunk-size answer [vl] satisfies
    [1 <= vl <= n - i] when [n - i > 0], the chunked loop of [q15_axpy_rvv]
    completes within [n] iterations ([n] units of fuel are enough and at most
    [n] chunks are requested, each making progress), and it has then written
    all [n] output elements, each exactly once: the stores are exactly
    [y[0..n-1]], the memory it leaves is the initial one with [y[0..n-1]]
    overwritten by [n] 16-bit values, and these are the clamps of
    [a[i] + alpha * b[i]] when no input cell is read after it was written. *)
Theorem q15_axpy_rvv_terminates vsetvl_hw vxrm cfg (fuel : nat) h a b y n alpha :
  fallback_build cfg = false ->
  vsetvl_ok vsetvl_hw ->
  is_i16 alpha -> 0 <= n <= INT32_MAX -> n <= Z.of_nat fuel ->
  allocated h a n -> allocated h b n -> allocated h y n ->
  exists s' vs,
    q15_axpy_rvv vsetvl_hw vxrm cfg fuel a b y n alpha (init h) = Ok tt s' /\
    chunks_progress (trace s') /\
    Z.of_nat (length (chunks (trace s'))) <= n /\
    stores (trace s') = seqZ y n /\
    NoDup (stores (trace s')) /\
    length vs = Z.to_nat n /\
    Forall is_i16 vs /\
    heap s' = write_lanes h y vs /\
    (forall i, 0 <= i < n -> heap s' !! (y + i) = vs !! Z.to_nat i) /\
    (hazard_free y a n -> hazard_free y b n ->
     forall i, 0 <= i < n ->
       cell (heap s') (y + i)
       = clamp (cell h (a + i) + alpha * cell h (b + i)) (-32768) 32767).
Proof.
  intros Hcfg Hhw Hal Hn Hfuel Ha Hb Hy.
  destruct (q15_axpy_rvv_vector_done vsetvl_hw vxrm Hhw cfg fuel h a b y n alpha)
    as (s' & Hdone & Hch & Hcnt); try assumption.
  pose proof Hdone as (Hrun & vs & Hlen & Hheap & Hst & _ & _).
  destruct (q15_axpy_rvv_loop_values vsetvl_hw vxrm Hhw a b y n alpha Hal Hn fuel 0 (init h))
    as (vs2 & tr2 & Hrun2 & Hlen2 & Hvs2); try assumption; try lia.
  rewrite Z.add_0_r, Z.sub_0_r in *. cbn [init heap] in Hrun2.
  assert (Hvs : vs = vs2).
  { apply (write_lanes_inj h y); [lia|]. rewrite <- Hheap.
    unfold q15_axpy_rvv in Hrun. rewrite Hcfg, (to_size_t_id n Hn) in Hrun.
    unfold bind in Hrun. rewrite Hrun2 in Hrun. unfold ret in Hrun.
    injection Hrun as <-. reflexivity. }
  subst vs2.
  exists s', vs. repeat split; try assumption.
  - rewrite Hst. apply NoDup_seqZ.
  - intros i Hi. rewrite Hheap.
    destruct (lookup_lt_is_Some_2 vs (Z.to_nat i)) as [x Hx]; [lia|].
    rewrite Hx. replace (y + i) with (y + Z.of_nat (Z.to_nat i)) by lia.
    apply write_lanes_lookup_in. exact Hx.
  - intros Hza Hzb i Hi.
    rewrite (axpy_done_cell _ _ _ _ _ _ _ _ i Hdone Hza (or_intror Hzb) Hi).
    unfold out_elt, q15_elt. apply sat_q15_scalar_clamp.
Qed.

Lemma q15_axpy_rvv_terminates_witness :
  exists s' vs,
    q15_axpy_rvv (vsetvl_vlmax 2) RNU vector_build 5 0 100 200 5 3 (init demo_heap)
    = Ok tt s' /\
    chunks_progress (trace s') /\
    Z.of_nat (length (chunks (trace s'))) <= 5 /\
    stores (trace s') = seqZ 200 5 /\
    NoDup (stores (trace s')) /\
    length vs = Z.to_nat 5 /\
    Forall is_i16 vs /\
    heap s' = write_lanes demo_heap 200 vs /\
    (forall i, 0 <= i < 5 -> heap s' !! (200 + i) = vs !! Z.to_nat i) /\
    (hazard_free 200 0 5 -> hazard_free 200 100 5 ->
     forall i, 0 <= i < 5 ->
       cell (heap s') (200 + i)
       = clamp (cell demo_heap (0 + i) + 3 * cell demo_heap (100 + i)) (-32768) 32767).
Proof.
  apply q15_axpy_rvv_terminates.
  - reflexivity.
  - apply vsetvl_vlmax_ok. lia.
  - demo_range.
  - demo_range.
  - lia.
  - demo_allocated.
  - demo_allocated.
  - demo_allocated.
Defined.

(** C8, as stated, fails on an in-place call: with [y = a] (one element,
    [a[0] = 1], [b[0] = 1], [alpha = 1]) both evaluators complete and the
    content of [a] has changed from 1 to 2. *)
Lemma frame_inputs_unchanged_fails_inplace :
  allocated inplace_heap 0 1 /\ allocated inplace_heap 1 1 /\
  cell inplace_heap 0 = 1 /\
  q15_axpy_ref 0 1 0 1 1 (init inplace_heap)
  = Ok tt (mkState (write_lanes ∅ 0 [2; 1]) [EvLoad 0; EvLoad 1; EvStore 0]) /\
  q15_axpy_rvv (vsetvl_vlmax 2) RNU vector_build 1 0 1 0 1 1 (init inplace_heap)
  = Ok tt (mkState (write_lanes ∅ 0 [2; 1])
                   [EvVsetvl 1 1; EvLoad 0; EvLoad 1; EvStore 0]) /\
  cell (write_lanes ∅ 0 [2; 1]) 0 = 2 /\
  cell (write_lanes ∅ 0 [2; 1]) 0 <> cell inplace_heap 0.
Proof.
  split; [demo_allocated|]. split; [demo_allocated|].
  split; [reflexivity|].
  split; [vm_compute; reflexivity|].
  split; [vm_compute; reflexivity|].
  split; [reflexivity|].
  vm_compute. discriminate.
Qed.

(** C8, amended.  For every call with [n >= 0] both evaluators complete,
    load only from [a[0..n-1]] and [b[0..n-1]], and store exactly to
    [y[0..n-1]], each cell once; every cell outside [y[0..n-1]] (so every
    [y[j]] with [j >= n], and all of memory when [n = 0]) is unchanged; and
    the contents of [a] (of [b]) are unchanged whenever [y[0..n-1]] does not
    overlap [a[0..n-1]] (resp. [b[0..n-1]]). *)
Theorem q15_axpy_frame vsetvl_hw vxrm cfg (fuel : nat) h a b y n alpha :
  vsetvl_ok vsetvl_hw ->
  is_i16 alpha -> 0 <= n <= INT32_MAX -> n <= Z.of_nat fuel ->
  allocated h a n -> allocated h b n -> allocated h y n ->
  exists s_ref s_rvv,
    q15_axpy_ref a b y n alpha (init h) = Ok tt s_ref /\
    q15_axpy_rvv vsetvl_hw vxrm cfg fuel a b y n alpha (init h) = Ok tt s_rvv /\
    forall s', s' = s_ref \/ s' = s_rvv ->
      loads_within a b n (trace s') /\
      stores (trace s') = seqZ y n /\
      NoDup (stores (trace s')) /\
      (forall p, ~ (y <= p < y + n) -> heap s' !! p = h !! p) /\
      (forall j, n <= j -> heap s' !! (y + j) = h !! (y + j)) /\
      (disjoint y a n -> forall j, 0 <= j < n -> heap s' !! (a + j) = h !! (a + j)) /\
      (disjoint y b n -> forall j, 0 <= j < n -> heap s' !! (b + j) = h !! (b + j)).
Proof.
  intros Hhw Hal Hn Hfuel Ha Hb Hy.
  destruct (q15_axpy_ref_done h a b y n alpha) as (s1 & H1 & _);
    try assumption; try lia.
  destruct (q15_axpy_rvv_done vsetvl_hw vxrm Hhw cfg fuel h a b y n alpha)
    as (s2 & H2); try assumption.
  exists s1, s2. split; [apply H1|]. split; [apply H2|].
  assert (Hall : forall r s', axpy_done h a b y n alpha r s' ->
            loads_within a b n (trace s') /\
            stores (trace s') = seqZ y n /\
            NoDup (stores (trace s')) /\
            (forall p, ~ (y <= p < y + n) -> heap s' !! p = h !! p) /\
            (forall j, n <= j -> heap s' !! (y + j) = h !! (y + j)) /\
            (disjoint y a n -> forall j, 0 <= j < n -> heap s' !! (a + j) = h !! (a + j)) /\
            (disjoint y b n -> forall j, 0 <= j < n -> heap s' !! (b + j) = h !! (b + j))).
  { intros r s' Hdone.
    assert (Hframe : forall p, ~ (y <= p < y + n) -> heap s' !! p = h !! p).
    { intros p Hp. apply (axpy_done_frame _ _ _ _ _ _ _ _ p Hdone); [lia | exact Hp]. }
    destruct Hdone as (_ & vs & _ & _ & Hst & Hld & _).
    split; [exact Hld|]. split; [exact Hst|].
    split; [rewrite Hst; apply NoDup_seqZ|].
    split; [exact Hframe|].
    split; [intros j Hj; apply Hframe; lia|].
    unfold disjoint. split; intros Hd j Hj; apply Hframe; lia. }
  intros s' [-> | ->]; eapply Hall; eassumption.
Qed.

Lemma q15_axpy_frame_witness :
  exists s_ref s_rvv,
    q15_axpy_ref 0 100 200 5 3 (init demo_heap) = Ok tt s_ref /\
    q15_axpy_rvv (vsetvl_vlmax 2) RNU vector_build 5 0 100 200 5 3 (init demo_heap)
    = Ok tt s_rvv /\
    forall s', s' = s_ref \/ s' = s_rvv ->
      loads_within 0 100 5 (trace s') /\
      stores (trace s') = seqZ 200 5 /\
      NoDup (stores (trace s')) /\
      (forall p, ~ (200 <= p < 200 + 5) -> heap s' !! p = demo_heap !! p) /\
      (forall j, 5 <= j -> heap s' !! (200 + j) = demo_heap !! (200 + j)) /\
      (disjoint 200 0 5 ->
       forall j, 0 <= j < 5 -> heap s' !! (0 + j) = demo_heap !! (0 + j)) /\
      (disjoint 200 100 5 ->
       forall j, 0 <= j < 5 -> heap s' !! (100 + j) = demo_heap !! (100 + j)).
Proof.
  apply q15_axpy_frame.
  - apply vsetvl_vlmax_ok. lia.
  - demo_range.
  - demo_range.
  - lia.
  - demo_allocated.
  - demo_allocated.
  - demo_allocated.
Defined.

(** C9. For every [n >= 0] and arrays [ref], [test] of length [n],
    [verify_equal] completes, stores to no array cell, and returns
    [max_abs_diff], the maximum over [i < n] of [|ref[i] - test[i]|] (an
    upper bound of every per-index difference, attained at some index, and
    [0] when [n = 0]); and it returns [ok = 1] exactly when every per-index
    difference is zero, [ok = 0] otherwise. *)
Theorem verify_equal_correct h ref test n :
  0 <= n -> allocated h ref n -> allocated h test n ->
  exists ok md s',
    verify_equal ref test n (init h) = Ok (ok, md) s' /\
    heap s' = h /\ stores (trace s') = [] /\
    md = max_abs_diff (read_array h ref n) (read_array h test n) /\
    (forall i, 0 <= i < n -> Z.abs (cell h (ref + i) - cell h (test + i)) <= md) /\
    (n = 0 -> md = 0) /\
    (0 < n ->
     exists i, 0 <= i < n /\ md = Z.abs (cell h (ref + i) - cell h (test + i))) /\
    (ok = 1 \/ ok = 0) /\
    (ok = 1 <-> forall i, 0 <= i < n -> cell h (ref + i) - cell h (test + i) = 0).
Proof.
  intros Hn Hr Ht.
  destruct (verify_equal_run h ref test n Hn Hr Ht) as (ok & tr & Hrun & Hst & Hok & Hiff).
  pose proof (max_abs_diff_is_max h ref test (Z.to_nat n)) as (_ & Hub & Hz & Hatt).
  rewrite Z2Nat.id in * by lia.
  exists ok, (max_abs_diff (read_array h ref n) (read_array h test n)), (mkState h tr).
  split; [exact Hrun|]. split; [reflexivity|]. split; [exact Hst|].
  split; [reflexivity|]. split; [exact Hub|].
  split; [intros ->; apply Hz; reflexivity|].
  split; [intros Hpos; apply Hatt; lia|].
  split; [exact Hok|]. rewrite Hiff.
  split; intros Hall i Hi; specialize (Hall i Hi); lia.
Qed.

Lemma verify_equal_correct_witness :
  exists ok md s',
    verify_equal 0 100 5 (init demo_heap) = Ok (ok, md) s' /\
    heap s' = demo_heap /\ stores (trace s') = [] /\
    md = max_abs_diff (read_array demo_heap 0 5) (read_array demo_heap 100 5) /\
    (forall i, 0 <= i < 5 ->
       Z.abs (cell demo_heap (0 + i) - cell demo_heap (100 + i)) <= md) /\
    (5 = 0 -> md = 0) /\
    (0 < 5 ->
     exists i, 0 <= i < 5 /\
               md = Z.abs (cell demo_heap (0 + i) - cell demo_heap (100 + i))) /\
    (ok = 1 \/ ok = 0) /\
    (ok = 1 <->
     forall i, 0 <= i < 5 -> cell demo_heap (0 + i) - cell demo_heap (100 + i) = 0).
Proof.
  apply verify_equal_correct.
  - lia.
  - demo_allocated.
  - demo_allocated.
Defined.

(** C10. The two results of [verify_equal] are consistent: for every
    [n >= 0] and every pair of arrays it returns [ok = 1] if and only if it
    returns [max_abs_diff = 0]; for [n = 0] it returns [ok = 1] and
    [max_abs_diff = 0]. *)
Theorem verify_equal_consistent h ref test n :
  0 <= n -> allocated h ref n -> allocated h test n ->
  exists ok md s',
    verify_equal ref test n (init h) = Ok (ok, md) s' /\
    (ok = 1 <-> md = 0) /\
    (n = 0 -> ok = 1 /\ md = 0).
Proof.
  intros Hn Hr Ht.
  destruct (verify_equal_run h ref test n Hn Hr Ht) as (ok & tr & Hrun & _ & _ & Hiff).
  pose proof (max_abs_diff_is_max h ref test (Z.to_nat n)) as (_ & Hub & Hz & Hatt).
  rewrite Z2Nat.id in * by lia.
  set (md := max_abs_diff (read_array h ref n) (read_array h test n)) in *.
  exists ok, md, (mkState h tr). split; [exact Hrun|].
  assert (Hmd : md = 0 <-> forall i, 0 <= i < n -> cell h (ref + i) = cell h (test + i)).
  { split.
    - intros H0 i Hi. specialize (Hub i Hi). lia.
    - intros Hall. destruct (Z.eq_dec n 0) as [->|Hn0]; [apply Hz; reflexivity|].
      destruct Hatt as (j & Hj & Hm); [lia|]. rewrite Hm, (Hall j Hj). lia. }
  split; [rewrite Hiff, Hmd; reflexivity|].
  intros ->. split; [apply Hiff; intros i Hi; lia | apply Hz; reflexivity].
Qed.

Lemma verify_equal_consistent_witness :
  exists ok md s',
    verify_equal 0 100 5 (init demo_heap) = Ok (ok, md) s' /\
    (ok = 1 <-> md = 0) /\
    (5 = 0 -> ok = 1 /\ md = 0).
Proof.
  apply verify_equal_consistent.
  - lia.
  - demo_allocated.
  - demo_allocated.
Defined.

(** * Further properties of the code *)

(** ** The scalar clamp *)

(** X1. [sat_q15_scalar] always returns a 16-bit value, returns an in-range
    argument unchanged (the narrowing cast loses nothing), and is
    idempotent. *)
Theorem sat_q15_scalar_projection v :
  is_i16 (sat_q15_scalar v) /\
  (is_i16 v -> sat_q15_scalar v = v) /\
  sat_q15_scalar (sat_q15_scalar v) = sat_q15_scalar v.
Proof.
  assert (Hfix : forall w, is_i16 w -> sat_q15_scalar w = w).
  { intros w Hw. rewrite sat_q15_scalar_clamp.
    unfold clamp, is_i16, INT16_MIN, INT16_MAX in *.
    destruct (32767 <? w) eqn:E; [apply Z.ltb_lt in E; lia|].
    destruct (w <? -32768) eqn:E'; [apply Z.ltb_lt in E'; lia|]. reflexivity. }
  split; [apply sat_q15_scalar_range|]. split; [apply Hfix|].
  apply Hfix. apply sat_q15_scalar_range.
Qed.

(** X2. [sat_q15_scalar] is monotone: saturation never reverses the order
    of two accumulators. *)
Theorem sat_q15_scalar_monotone v w :
  v <= w -> sat_q15_scalar v <= sat_q15_scalar w.
Proof.
  intros Hvw. rewrite !sat_q15_scalar_clamp. unfold clamp.
  destruct (32767 <? v) eqn:E1; destruct (32767 <? w) eqn:E2;
    destruct (v <? -32768) eqn:E3; destruct (w <? -32768) eqn:E4;
    repeat match goal with
           | H : (_ <? _) = true |- _ => apply Z.ltb_lt in H
           | H : (_ <? _) = false |- _ => apply Z.ltb_ge in H
           end; lia.
Qed.

Lemma sat_q15_scalar_monotone_witness : sat_q15_scalar (-40000) <= sat_q15_scalar 12.
Proof. apply sat_q15_scalar_monotone. lia. Defined.

(** ** The narrowing step of the kernel *)

(** X3. After the [vmin]/[vmax] clamp, the narrowing clip with shift 0
    changes no lane, whatever the rounding mode in [vxrm] and whatever the
    32-bit lanes were: it neither rounds nor saturates. *)
Theorem vnclip_after_clamp_lossless rm (v : list Z) vl :
  vnclip_wx_i16m1 rm (vmax_vx_i32m2 (vmin_vx_i32m2 v 32767 vl) (-32768) vl) 0 vl
  = vmax_vx_i32m2 (vmin_vx_i32m2 v 32767 vl) (-32768) vl.
Proof.
  unfold vnclip_wx_i16m1, vmax_vx_i32m2, vmin_vx_i32m2, lanes.
  set (k := Z.to_nat vl). clearbody k.
  rewrite !firstn_map, !take_take, !Nat.min_id.
  induction (take k v) as [|x u IH]; [reflexivity|].
  cbn [map]. f_equal; [|exact IH].
  change (Z.land 0 31) with 0. unfold roundoff_signed. rewrite Z.shiftr_0_r.
  assert (Hr : round_incr rm (Z.max (Z.min x 32767) (-32768)) 0 = 0).
  { destruct rm; simpl; try reflexivity.
    rewrite Z.land_0_r. simpl. rewrite andb_false_r. reflexivity. }
  rewrite Hr, Z.add_0_r. unfold clip_i16, INT16_MIN, INT16_MAX. lia.
Qed.

(** ** The vector path on its own *)

(** X4. The vector evaluator meets the contract directly: for every
    [n >= 0], on any conforming hart and in any rounding mode,
    [q15_axpy_rvv] completes and leaves in every [y[i]], [i < n], the clamp
    to [[-32768, 32767]] of the exact [a[i] + alpha * b[i]]. *)
Theorem q15_axpy_rvv_contract vsetvl_hw vxrm cfg (fuel : nat) h a b y n alpha :
  vsetvl_ok vsetvl_hw ->
  is_i16 alpha -> 0 <= n <= INT32_MAX -> n <= Z.of_nat fuel ->
  allocated h a n -> allocated h b n -> allocated h y n ->
  hazard_free y a n -> hazard_free y b n ->
  exists s',
    q15_axpy_rvv vsetvl_hw vxrm cfg fuel a b y n alpha (init h) = Ok tt s' /\
    forall i, 0 <= i < n ->
      cell (heap s') (y + i)
      = clamp (cell h (a + i) + alpha * cell h (b + i)) (-32768) 32767.
Proof.
  intros Hhw Hal Hn Hfuel Ha Hb Hy Hza Hzb.
  destruct (q15_axpy_rvv_done vsetvl_hw vxrm Hhw cfg fuel h a b y n alpha)
    as (s' & Hdone); try assumption.
  exists s'. split; [apply Hdone|]. intros i Hi.
  rewrite (axpy_done_cell _ _ _ _ _ _ _ _ i Hdone Hza (or_intror Hzb) Hi).
  unfold out_elt, q15_elt. apply sat_q15_scalar_clamp.
Qed.

Lemma q15_axpy_rvv_contract_witness :
  exists s',
    q15_axpy_rvv (vsetvl_vlmax 2) ROD vector_build 5 0 100 200 5 3 (init demo_heap)
    = Ok tt s' /\
    forall i, 0 <= i < 5 ->
      cell (heap s') (200 + i)
      = clamp (cell demo_heap (0 + i) + 3 * cell demo_heap (100 + i)) (-32768) 32767.
Proof.
  apply q15_axpy_rvv_contract.
  - apply vsetvl_vlmax_ok. lia.
  - demo_range.
  - demo_range.
  - lia.
  - demo_allocated.
  - demo_allocated.
  - demo_allocated.
  - unfold hazard_free. lia.
  - unfold hazard_free. lia.
Defined.

(** X5. The kernel is vector-length agnostic: two runs on the same inputs,
    on two conforming harts (with different chunk sizes), in two rounding
    modes, leave the same memory. *)
Theorem q15_axpy_rvv_hart_independent
    hw1 rm1 cfg1 (fuel1 : nat) hw2 rm2 cfg2 (fuel2 : nat) h a b y n alpha :
  vsetvl_ok hw1 -> vsetvl_ok hw2 ->
  is_i16 alpha -> 0 <= n <= INT32_MAX ->
  n <= Z.of_nat fuel1 -> n <= Z.of_nat fuel2 ->
  allocated h a n -> allocated h b n -> allocated h y n ->
  hazard_free y a n -> hazard_free y b n ->
  exists s1 s2,
    q15_axpy_rvv hw1 rm1 cfg1 fuel1 a b y n alpha (init h) = Ok tt s1 /\
    q15_axpy_rvv hw2 rm2 cfg2 fuel2 a b y n alpha (init h) = Ok tt s2 /\
    heap s1 = heap s2.
Proof.
  intros Hhw1 Hhw2 Hal Hn Hf1 Hf2 Ha Hb Hy Hza Hzb.
  destruct (q15_axpy_rvv_done hw1 rm1 Hhw1 cfg1 fuel1 h a b y n alpha)
    as (s1 & H1); try assumption.
  destruct (q15_axpy_rvv_done hw2 rm2 Hhw2 cfg2 fuel2 h a b y n alpha)
    as (s2 & H2); try assumption.
  exists s1, s2. split; [apply H1|]. split; [apply H2|].
  eapply axpy_done_heap_eq; [exact H1 | exact H2 | exact Hza | right; exact Hzb].
Qed.

Lemma q15_axpy_rvv_hart_independent_witness :
  exists s1 s2,
    q15_axpy_rvv (vsetvl_vlmax 2) RNU vector_build 5 0 100 200 5 3 (init demo_heap)
    = Ok tt s1 /\
    q15_axpy_rvv (vsetvl_vlmax 8) RDN vector_build 9 0 100 200 5 3 (init demo_heap)
    = Ok tt s2 /\
    heap s1 = heap s2.
Proof.
  apply q15_axpy_rvv_hart_independent.
  - apply vsetvl_vlmax_ok. lia.
  - apply vsetvl_vlmax_ok. lia.
  - demo_range.
  - demo_range.
  - lia.
  - lia.
  - demo_allocated.
  - demo_allocated.
  - demo_allocated.
  - unfold hazard_free. lia.
  - unfold hazard_free. lia.
Defined.

(** ** Lengths at and below zero *)

(** X6. With [n <= 0] the reference loop does nothing, and with [n = 0]
    neither does the vector path: the state (memory and accesses) is
    unchanged on any hart, with any fuel, and whatever the three pointers
    are, allocated or not. *)
Theorem empty_input_noop vsetvl_hw vxrm cfg (fuel : nat) a b y n alpha s :
  n <= 0 ->
  q15_axpy_ref a b y n alpha s = Ok tt s /\
  (n = 0 -> q15_axpy_rvv vsetvl_hw vxrm cfg fuel a b y n alpha s = Ok tt s).
Proof.
  intros Hn.
  assert (Href : q15_axpy_ref a b y n alpha s = Ok tt s).
  { unfold q15_axpy_ref. replace (Z.to_nat n) with O by lia. reflexivity. }
  split; [exact Href|]. intros ->.
  unfold q15_axpy_rvv. destruct (fallback_build cfg); [exact Href|].
  unfold bind. rewrite while_lt_done; [reflexivity|].
  unfold to_size_t, uint. rewrite Z.mod_0_l; [lia|]. unfold SIZE_BITS. lia.
Qed.

Lemma empty_input_noop_witness :
  q15_axpy_ref 0 100 200 0 3 (init ∅) = Ok tt (init ∅) /\
  (0 = 0 ->
   q15_axpy_rvv (fun _ => 0) RNU vector_build 0 0 100 200 0 3 (init ∅) = Ok tt (init ∅)).
Proof. apply empty_input_noop. lia. Defined.

(** What a completed access tells about the state it started from. *)
Lemma load_i16_inv p s v s' :
  load_i16 p s = Ok v s' ->
  is_Some (heap s !! p) /\ heap s' = heap s /\ trace s' = trace s ++ [EvLoad p].
Proof.
  unfold load_i16. destruct (heap s !! p) eqn:E; [|discriminate].
  intros H. injection H as _ <-. eauto.
Qed.

Lemma store_i16_inv p v s u s' :
  store_i16 p v s = Ok u s' ->
  is_Some (heap s !! p) /\ heap s' = <[p := v]> (heap s) /\
  trace s' = trace s ++ [EvStore p].
Proof.
  unfold store_i16. destruct (heap s !! p) eqn:E; [|discriminate].
  intros H. injection H as _ <-. eauto.
Qed.

Lemma allocated_insert_inv h p n q x :
  is_Some (h !! q) -> allocated (<[q := x]> h) p n -> allocated h p n.
Proof.
  intros Hq H j Hj. specialize (H j Hj).
  destruct (decide (q = p + j)) as [<-|Hne]; [exact Hq|].
  rewrite lookup_insert_ne in H by done. exact H.
Qed.

Lemma allocated_cons h p (k : nat) :
  is_Some (h !! p) -> allocated h (p + 1) (Z.of_nat k) ->
  allocated h p (Z.of_nat (S k)).
Proof.
  intros H0 H j Hj. destruct (Z.eq_dec j 0) as [->|Hne].
  - rewrite Z.add_0_r. exact H0.
  - replace (p + j) with (p + 1 + (j - 1)) by lia. apply H. lia.
Qed.

Lemma load_lanes_inv k p s :
  match load_lanes k p s with
  | Ok v s' =>
      allocated (heap s) p (Z.of_nat k) /\ heap s' = heap s /\ length v = k
  | Fault => True
  | Timeout => False
  end.
Proof.
  revert p s. induction k as [|k IH]; intros p s.
  - cbn. repeat split. intros j Hj. lia.
  - cbn [load_lanes]. unfold bind at 1.
    destruct (load_i16 p s) as [x s1| |] eqn:E1;
      [|exact I|unfold load_i16 in E1; destruct (heap s !! p); discriminate].
    apply load_i16_inv in E1 as (Hp & Hh1 & _).
    unfold bind at 1. specialize (IH (p + 1) s1).
    destruct (load_lanes k (p + 1) s1) as [xs s2| |]; [|exact I|exact IH].
    destruct IH as (Hal & Hh2 & Hlen). unfold ret. rewrite Hh1 in Hal.
    split; [apply allocated_cons; assumption|].
    split; [congruence | cbn; lia].
Qed.

Lemma store_lanes_inv v p s :
  match store_lanes v p s with
  | Ok _ s' =>
      allocated (heap s) p (Z.of_nat (length v)) /\ heap s' = write_lanes (heap s) p v
  | Fault => True
  | Timeout => False
  end.
Proof.
  revert p s. induction v as [|x v IH]; intros p s.
  - cbn. split; [intros j Hj; lia | reflexivity].
  - cbn [store_lanes]. unfold bind at 1.
    destruct (store_i16 p x s) as [u s1| |] eqn:E1;
      [|exact I|unfold store_i16 in E1; destruct (heap s !! p); discriminate].
    apply store_i16_inv in E1 as (Hp & Hh1 & _).
    specialize (IH (p + 1) s1).
    destruct (store_lanes v (p + 1) s1) as [u' s2| |]; [|exact I|exact IH].
    destruct IH as (Hal & Hh2). rewrite Hh1 in Hal, Hh2.
    split; [|exact Hh2]. cbn [length]. apply allocated_cons; [exact Hp|].
    eapply allocated_insert_inv; eassumption.
Qed.

Lemma write_lanes_lookup_None h p v q :
  allocated h p (Z.of_nat (length v)) ->
  write_lanes h p v !! q = None <-> h !! q = None.
Proof.
  intros Hal.
  destruct (decide (p <= q < p + Z.of_nat (length v))) as [Hin|Hout].
  - destruct (lookup_lt_is_Some_2 v (Z.to_nat (q - p))) as [x Hx]; [lia|].
    pose proof (write_lanes_lookup_in h p v _ x Hx) as L.
    replace (p + Z.of_nat (Z.to_nat (q - p))) with q in L by lia.
    destruct (Hal (q - p)) as [w Hw]; [lia|].
    replace (p + (q - p)) with q in Hw by lia.
    rewrite L, Hw. split; discriminate.
  - rewrite write_lanes_lookup_out by exact Hout. reflexivity.
Qed.

Lemma to_size_t_bound n : 0 <= to_size_t n < 2 ^ 64.
Proof. unfold to_size_t, uint, SIZE_BITS. apply Z.mod_pos_bound. lia. Qed.

Lemma to_size_t_negative n : - 2 ^ 64 <= n < 0 -> to_size_t n = 2 ^ 64 + n.
Proof.
  intros Hn. unfold to_size_t, uint, SIZE_BITS.
  change (2 ^ 64) with 18446744073709551616 in *.
  symmetry. apply (Z.mod_unique n 18446744073709551616 (-1)); lia.
Qed.

Section RunningOff.

Variable vsetvl_hw : Z -> Z.
Variable vxrm : rounding.
Hypothesis vsetvl_hw_ok : vsetvl_ok vsetvl_hw.

(** One iteration of the chunked loop when [(size_t)n] elements are asked
    for, whatever the sign of [n]: it never times out, and it completes only
    if the whole chunk is allocated, leaving allocation as it was. *)
Lemma q15_axpy_rvv_body_inv a b y n alpha i s :
  0 <= i < to_size_t n ->
  let vl := vsetvl_hw (to_size_t n - i) in
  match q15_axpy_rvv_body vsetvl_hw vxrm a b y n alpha i s with
  | Ok i' s' =>
      i' = i + vl /\
      allocated (heap s) (a + i) vl /\ allocated (heap s) (b + i) vl /\
      allocated (heap s) (y + i) vl /\
      forall q, heap s' !! q = None <-> heap s !! q = None
  | Fault => True
  | Timeout => False
  end.
Proof.
  intros Hi vl. pose proof (to_size_t_bound n) as HN.
  destruct (vsetvl_hw_ok (to_size_t n - i)) as [Hvl1 Hvl2]; [lia|]. fold vl in Hvl1, Hvl2.
  assert (Hsub : size_sub (to_size_t n) i = to_size_t n - i).
  { unfold size_sub, uint, SIZE_BITS. apply Z.mod_small. lia. }
  assert (Hadd : size_add i vl = i + vl).
  { unfold size_add, uint, SIZE_BITS. apply Z.mod_small. lia. }
  unfold q15_axpy_rvv_body. rewrite Hsub. fold vl.
  unfold bind at 1. unfold vsetvl_e16m1 at 1. cbv zeta. fold vl.
  set (s0 := log (EvVsetvl (to_size_t n - i) vl) s).
  unfold bind at 1. unfold vle16_v_i16m1 at 1.
  pose proof (load_lanes_inv (Z.to_nat vl) (a + i) s0) as Ia.
  destruct (load_lanes (Z.to_nat vl) (a + i) s0) as [va s1| |]; [|exact I|exact Ia].
  destruct Ia as (Ha & Hh1 & Hla).
  unfold bind at 1. unfold vle16_v_i16m1 at 1.
  pose proof (load_lanes_inv (Z.to_nat vl) (b + i) s1) as Ib.
  destruct (load_lanes (Z.to_nat vl) (b + i) s1) as [vb s2| |]; [|exact I|exact Ib].
  destruct Ib as (Hb & Hh2 & Hlb).
  unfold bind at 1. unfold vse16_v_i16m1.
  set (vy := lanes vl _).
  assert (Hly : length vy = Z.to_nat vl).
  { subst vy. unfold vnclip_wx_i16m1, vmax_vx_i32m2, vmin_vx_i32m2, vadd_vv_i32m2,
      vwadd_vx_i32m2, vwmul_vx_i32m2, lanes.
    repeat (rewrite length_map || rewrite length_take || rewrite length_zip_with). lia. }
  pose proof (store_lanes_inv vy (y + i) s2) as Iy.
  destruct (store_lanes vy (y + i) s2) as [u s3| |]; [|exact I|exact Iy].
  destruct Iy as (Hy & Hh3). unfold ret. rewrite Hadd.
  rewrite Hly in Hy. rewrite Z2Nat.id in Ha, Hb, Hy by lia.
  assert (E2 : heap s2 = heap s) by (rewrite Hh2, Hh1; reflexivity).
  rewrite E2 in Hy, Hh3. rewrite Hh1 in Hb.
  subst s0. cbn [log heap] in Ha, Hb.
  split; [reflexivity|]. split; [exact Ha|]. split; [exact Hb|]. split; [exact Hy|].
  intros q. rewrite Hh3. apply write_lanes_lookup_None.
  rewrite Hly, Z2Nat.id by lia. exact Hy.
Qed.

(** The chunked loop faults once its chunks reach an element that is not
    allocated. *)
Lemma q15_axpy_rvv_loop_runs_off a b y n alpha (fuel : nat) i j s :
  0 <= i <= j -> j < to_size_t n -> j - i < Z.of_nat fuel ->
  heap s !! (a + j) = None \/ heap s !! (b + j) = None \/ heap s !! (y + j) = None ->
  while_lt fuel (to_size_t n) (q15_axpy_rvv_body vsetvl_hw vxrm a b y n alpha) i s
  = Fault.
Proof.
  revert i s. induction fuel as [|fuel IH]; intros i s Hi Hj Hfuel Hnone; [lia|].
  rewrite while_lt_step by lia.
  pose proof (q15_axpy_rvv_body_inv a b y n alpha i s) as Hb.
  cbv zeta in Hb. specialize (Hb ltac:(lia)).
  destruct (vsetvl_hw_ok (to_size_t n - i)) as [Hvl1 Hvl2]; [lia|].
  set (vl := vsetvl_hw (to_size_t n - i)) in *.
  destruct (q15_axpy_rvv_body vsetvl_hw vxrm a b y n alpha i s) as [i' s1| |];
    [|reflexivity|destruct Hb].
  destruct Hb as (-> & Ha & Hbb & Hy & Hdom).
  destruct (Z.lt_ge_cases j (i + vl)) as [Hcov|Hnot].
  - exfalso.
    assert (Hsome : forall p, allocated (heap s) (p + i) vl -> heap s !! (p + j) <> None).
    { intros p Hp. destruct (Hp (j - i)) as [w Hw]; [lia|].
      replace (p + i + (j - i)) with (p + j) in Hw by lia. rewrite Hw. discriminate. }
    destruct Hnone as [H|[H|H]]; [apply (Hsome a Ha) | apply (Hsome b Hbb) | apply (Hsome y Hy)];
      exact H.
  - apply IH; try lia. rewrite !Hdom. exact Hnone.
Qed.

(** X7. Out of contract, the two evaluators part ways.  For a negative [n]
    the reference loop is a no-op.  The vector path converts [n] to
    [size_t] and takes the huge result as the element count: on any
    conforming hart it enters its loop and faults once its chunks reach an
    element, of any index [j] an [int] can hold, at which [a], [b] or [y]
    is not allocated ([j + 1] iterations are enough to get there). *)
Theorem negative_length_diverges cfg (fuel : nat) h a b y n alpha j :
  fallback_build cfg = false ->
  INT32_MIN <= n < 0 ->
  0 <= j <= INT32_MAX -> j < Z.of_nat fuel ->
  h !! (a + j) = None \/ h !! (b + j) = None \/ h !! (y + j) = None ->
  q15_axpy_ref a b y n alpha (init h) = Ok tt (init h) /\
  q15_axpy_rvv vsetvl_hw vxrm cfg fuel a b y n alpha (init h) = Fault.
Proof.
  intros Hcfg Hn Hj Hfuel Hnone.
  assert (Hsz : to_size_t n = 2 ^ 64 + n).
  { apply to_size_t_negative. unfold INT32_MIN in Hn.
    change (2 ^ 64) with 18446744073709551616. lia. }
  split; [unfold q15_axpy_ref; replace (Z.to_nat n) with O by lia; reflexivity|].
  unfold q15_axpy_rvv. rewrite Hcfg. unfold bind.
  rewrite (q15_axpy_rvv_loop_runs_off a b y n alpha fuel 0 j); try lia; [reflexivity| |].
  - rewrite Hsz. unfold INT32_MIN, INT32_MAX in *.
    change (2 ^ 64) with 18446744073709551616. lia.
  - exact Hnone.
Qed.

End RunningOff.

Lemma negative_length_diverges_witness :
  q15_axpy_ref 0 100 200 (-1) 3 (init demo_heap) = Ok tt (init demo_heap) /\
  q15_axpy_rvv (vsetvl_vlmax 2) RNU vector_build 6 0 100 200 (-1) 3 (init demo_heap)
  = Fault.
Proof.
  apply (negative_length_diverges (vsetvl_vlmax 2) RNU (vsetvl_vlmax_ok 2 ltac:(lia))
           vector_build 6 demo_heap 0 100 200 (-1) 3 5).
  - reflexivity.
  - unfold INT32_MIN. lia.
  - unfold INT32_MAX. lia.
  - lia.
  - left. vm_compute. reflexivity.
Defined.

(** ** What can go wrong *)

Lemma q15_axpy_ref_body_inv a b y alpha i s :
  match q15_axpy_ref_body a b y alpha i tt s with
  | Ok _ s' =>
      is_Some (heap s !! (a + i)) /\ is_Some (heap s !! (b + i)) /\
      is_Some (heap s !! (y + i)) /\ exists v, heap s' = <[y + i := v]> (heap s)
  | Fault => True
  | Timeout => False
  end.
Proof.
  unfold q15_axpy_ref_body, q15_axpy_ref_acc, bind, load_i16, store_i16,
    mul_i32, add_i32, checked_i32, ret, fault, log.
  destruct s as [h tr]. cbn [heap trace].
  destruct (h !! (a + i)) eqn:Ea; cbn [heap trace]; [|exact I].
  destruct (h !! (b + i)) eqn:Eb; cbn [heap trace]; [|exact I].
  destruct (in_i32 _); cbn [heap trace]; [|exact I].
  destruct (in_i32 _); cbn [heap trace]; [|exact I].
  destruct (h !! (y + i)) eqn:Ey; cbn [heap trace]; [|exact I].
  eauto 10.
Qed.

Lemma q15_axpy_ref_loop_inv a b y alpha (k : nat) i s :
  match for_range k i (q15_axpy_ref_body a b y alpha) tt s with
  | Ok _ _ =>
      allocated (heap s) (a + i) (Z.of_nat k) /\
      allocated (heap s) (b + i) (Z.of_nat k) /\
      allocated (heap s) (y + i) (Z.of_nat k)
  | Fault => True
  | Timeout => False
  end.
Proof.
  revert i s. induction k as [|k IH]; intros i s.
  - cbn. repeat split; intros j Hj; lia.
  - rewrite for_range_S.
    pose proof (q15_axpy_ref_body_inv a b y alpha i s) as Hb.
    destruct (q15_axpy_ref_body a b y alpha i tt s) as [[] s1| |]; [|exact I|exact Hb].
    destruct Hb as (Ha0 & Hb0 & Hy0 & v & Hh).
    specialize (IH (i + 1) s1).
    destruct (for_range k (i + 1) _ tt s1) as [u s2| |]; [|exact I|exact IH].
    destruct IH as (Ha & Hb & Hy). rewrite Hh in Ha, Hb, Hy.
    repeat split; apply allocated_cons; try assumption;
      rewrite <- Z.add_assoc; eapply allocated_insert_inv; eassumption.
Qed.

(** X8. The only thing that can go wrong in [q15_axpy_ref] is an access
    outside the arrays: for every [n >= 0], 16-bit [alpha] and any memory
    contents, the call completes exactly when [a[0..n-1]], [b[0..n-1]] and
    [y[0..n-1]] are allocated, and faults otherwise; no data makes the
    arithmetic overflow, and the loop always ends. *)
Theorem q15_axpy_ref_faults_iff h a b y n alpha :
  is_i16 alpha -> 0 <= n ->
  ((exists s', q15_axpy_ref a b y n alpha (init h) = Ok tt s') <->
   allocated h a n /\ allocated h b n /\ allocated h y n) /\
  (q15_axpy_ref a b y n alpha (init h) = Fault <->
   ~ (allocated h a n /\ allocated h b n /\ allocated h y n)) /\
  q15_axpy_ref a b y n alpha (init h) <> Timeout.
Proof.
  intros Hal Hn.
  pose proof (q15_axpy_ref_loop_inv a b y alpha (Z.to_nat n) 0 (init h)) as Hinv.
  fold (q15_axpy_ref a b y n alpha) in Hinv.
  rewrite !Z.add_0_r, Z2Nat.id in Hinv by lia. cbn [init heap] in Hinv.
  assert (Hok : allocated h a n /\ allocated h b n /\ allocated h y n ->
                exists s', q15_axpy_ref a b y n alpha (init h) = Ok tt s').
  { intros (Ha & Hb & Hy).
    destruct (q15_axpy_ref_done h a b y n alpha Hal Hn Ha Hb Hy) as (s' & Hd & _).
    exists s'. apply Hd. }
  destruct (q15_axpy_ref a b y n alpha (init h)) as [[] s1| |] eqn:E.
  - split; [split; [intros _; exact Hinv | intros _; eauto]|].
    split; [|discriminate]. split; [discriminate|]. intros Hno. exfalso. apply Hno, Hinv.
  - split; [split; [intros [s' Hs']; discriminate | intros H; apply Hok in H as [s' Hs']; discriminate]|].
    split; [|discriminate]. split; [|reflexivity].
    intros _ H. apply Hok in H as [s' Hs']. discriminate.
  - destruct Hinv.
Qed.

Lemma q15_axpy_ref_faults_iff_witness :
  ((exists s', q15_axpy_ref 0 100 200 7 3 (init demo_heap) = Ok tt s') <->
   allocated demo_heap 0 7 /\ allocated demo_heap 100 7 /\ allocated demo_heap 200 7) /\
  (q15_axpy_ref 0 100 200 7 3 (init demo_heap) = Fault <->
   ~ (allocated demo_heap 0 7 /\ allocated demo_heap 100 7 /\ allocated demo_heap 200 7)) /\
  q15_axpy_ref 0 100 200 7 3 (init demo_heap) <> Timeout.
Proof. apply q15_axpy_ref_faults_iff; [demo_range | lia]. Defined.

Lemma verify_equal_body_inv ref test i st s :
  match verify_equal_body ref test i st s with
  | Ok _ s' =>
      is_Some (heap s !! (ref + i)) /\ is_Some (heap s !! (test + i)) /\
      heap s' = heap s
  | Fault => True
  | Timeout => False
  end.
Proof.
  destruct st as [ok md]. unfold verify_equal_body.
  unfold bind at 1.
  destruct (load_i16 (ref + i) s) as [r s1| |] eqn:E1;
    [|exact I|unfold load_i16 in E1; destruct (heap s !! (ref + i)); discriminate].
  apply load_i16_inv in E1 as (Hr & Hh1 & _).
  unfold bind at 1.
  destruct (load_i16 (test + i) s1) as [t s2| |] eqn:E2;
    [|exact I|unfold load_i16 in E2; destruct (heap s1 !! (test + i)); discriminate].
  apply load_i16_inv in E2 as (Ht & Hh2 & _).
  unfold bind, sub_i32, neg_i32, checked_i32, ret, fault.
  destruct (in_i32 (r - t)); [|exact I].
  destruct (r - t <? 0); [destruct (in_i32 (- (r - t))); [|exact I]|];
    (split; [exact Hr|]; split; [rewrite <- Hh1; exact Ht | congruence]).
Qed.

Lemma verify_equal_loop_inv ref test (k : nat) i st s :
  match for_range k i (verify_equal_body ref test) st s with
  | Ok _ _ =>
      allocated (heap s) (ref + i) (Z.of_nat k) /\
      allocated (heap s) (test + i) (Z.of_nat k)
  | Fault => True
  | Timeout => False
  end.
Proof.
  revert i st s. induction k as [|k IH]; intros i st s.
  - cbn. split; intros j Hj; lia.
  - rewrite for_range_S.
    pose proof (verify_equal_body_inv ref test i st s) as Hb.
    destruct (verify_equal_body ref test i st s) as [st1 s1| |]; [|exact I|exact Hb].
    destruct Hb as (Hr0 & Ht0 & Hh).
    specialize (IH (i + 1) st1 s1).
    destruct (for_range k (i + 1) _ st1 s1) as [u s2| |]; [|exact I|exact IH].
    destruct IH as (Hr & Ht). rewrite Hh in Hr, Ht.
    split; apply allocated_cons; try assumption; rewrite <- Z.add_assoc; assumption.
Qed.

Lemma store_i32_outcome p v s :
  match store_i32 p v s with
  | Ok _ s' =>
      allocated (heap s) p 2 /\
      heap s' = <[p + 1 := Z.shiftr v 16]> (<[p := Z.land v 65535]> (heap s))
  | Fault => ~ allocated (heap s) p 2
  | Timeout => False
  end.
Proof.
  unfold store_i32, bind, store_i16. destruct s as [h tr]. cbn [heap trace].
  destruct (h !! p) eqn:E1; cbn [heap trace].
  - rewrite lookup_insert_ne by lia.
    destruct (h !! (p + 1)) eqn:E2; cbn [heap trace].
    + split; [|reflexivity]. intros j Hj.
      assert (j = 0 \/ j = 1) as [-> | ->] by lia;
        [rewrite Z.add_0_r, E1 | rewrite E2]; eauto.
    + intros H. destruct (H 1) as [w Hw]; [lia|]. congruence.
  - intros H. destruct (H 0) as [w Hw]; [lia|]. rewrite Z.add_0_r in Hw. congruence.
Qed.

Lemma cell_i32_store h p v :
  is_i32 v ->
  cell_i32 (<[p + 1 := Z.shiftr v 16]> (<[p := Z.land v 65535]> h)) p = v.
Proof.
  intros Hv. unfold cell_i32, cell.
  rewrite lookup_insert_ne by lia. rewrite !lookup_insert_eq. cbn [default id].
  unfold id.
  change 65535 with (Z.ones 16). rewrite !Z.land_ones by lia.
  rewrite Z.shiftr_div_pow2 by lia. change (2 ^ 16) with 65536.
  rewrite Z.mod_mod by lia.
  pose proof (Z.div_mod v 65536 ltac:(lia)) as Hdm.
  pose proof (Z.mod_pos_bound v 65536 ltac:(lia)) as Hm.
  unfold is_i32, INT32_MIN, INT32_MAX in Hv.
  rewrite sint16_id by (unfold is_i16, INT16_MIN, INT16_MAX; lia). lia.
Qed.

(** X9. Likewise for [verify_equal], called with its out-parameter: for
    every [n >= 0] and any memory contents the call completes exactly when
    [ref[0..n-1]], [test[0..n-1]] and the [int32_t] at [max_diff] are
    allocated, and faults otherwise; the difference and its negation never
    overflow [int32_t] and the loop always ends.  When it completes, the
    [int32_t] at [max_diff] holds the maximum absolute difference and the
    value returned is 1 exactly when the arrays agree. *)
Theorem verify_equal_faults_iff h ref test n max_diff :
  0 <= n ->
  ((exists ok s', verify_equal_out ref test n max_diff (init h) = Ok ok s') <->
   allocated h ref n /\ allocated h test n /\ allocated h max_diff 2) /\
  (verify_equal_out ref test n max_diff (init h) = Fault <->
   ~ (allocated h ref n /\ allocated h test n /\ allocated h max_diff 2)) /\
  verify_equal_out ref test n max_diff (init h) <> Timeout /\
  (forall ok s',
     verify_equal_out ref test n max_diff (init h) = Ok ok s' ->
     cell_i32 (heap s') max_diff
     = max_abs_diff (read_array h ref n) (read_array h test n) /\
     (ok = 1 <-> forall i, 0 <= i < n -> cell h (ref + i) = cell h (test + i))).
Proof.
  intros Hn.
  pose proof (verify_equal_loop_inv ref test (Z.to_nat n) 0 (1, 0) (init h)) as Hinv.
  fold (verify_equal ref test n) in Hinv.
  rewrite !Z.add_0_r, Z2Nat.id in Hinv by lia. cbn [init heap] in Hinv.
  assert (Hfwd : allocated h ref n /\ allocated h test n ->
            exists ok tr,
              verify_equal ref test n (init h)
              = Ok (ok, max_abs_diff (read_array h ref n) (read_array h test n))
                   (mkState h tr) /\
              (ok = 1 <-> forall i, 0 <= i < n -> cell h (ref + i) = cell h (test + i))).
  { intros (Hr & Ht).
    destruct (verify_equal_run h ref test n Hn Hr Ht) as (ok & tr & Hrun & _ & _ & Hiff).
    eauto. }
  unfold verify_equal_out, bind.
  destruct (verify_equal ref test n (init h)) as [[ok md] s1| |] eqn:E.
  - destruct (Hfwd Hinv) as (ok' & tr & Hrun & Hiff).
    injection Hrun as -> -> ->. cbn [fst snd].
    set (md := max_abs_diff (read_array h ref n) (read_array h test n)) in *.
    assert (Hmd : is_i32 md).
    { pose proof (max_abs_diff_is_max h ref test (Z.to_nat n)) as (Hge & _ & Hz & Hatt).
      rewrite Z2Nat.id in * by lia. fold md in Hge, Hz, Hatt.
      unfold is_i32, INT32_MIN, INT32_MAX.
      destruct (Z.eq_dec n 0) as [->|Hn0]; [rewrite Hz by reflexivity; lia|].
      destruct Hatt as (j & Hj & ->); [lia|].
      pose proof (cell_range h (ref + j)) as H1. pose proof (cell_range h (test + j)) as H2.
      unfold is_i16, INT16_MIN, INT16_MAX in *. lia. }
    pose proof (store_i32_outcome max_diff md (mkState h tr)) as Hst.
    destruct (store_i32 max_diff md (mkState h tr)) as [u s2| |]; cbn [heap] in Hst.
    + destruct Hst as (Hmax & Hh2). unfold ret.
      split; [split; [intros _; tauto | intros _; eauto]|].
      split; [split; [discriminate | intros Hno; exfalso; apply Hno; tauto]|].
      split; [discriminate|].
      intros ok0 s0 H0. injection H0 as <- <-.
      split; [rewrite Hh2; apply cell_i32_store; exact Hmd | exact Hiff].
    + split; [split; [intros (o & s0 & H0); discriminate | intros (_ & _ & H); contradiction]|].
      split; [split; [intros _ (_ & _ & H); contradiction | reflexivity]|].
      split; [discriminate|]. intros ok0 s0 H0. discriminate.
    + destruct Hst.
  - assert (Hno : ~ (allocated h ref n /\ allocated h test n)).
    { intros H. destruct (Hfwd H) as (o & tr & Hrun & _). discriminate. }
    split; [split; [intros (o & s0 & H0); discriminate | intros (Hr & Ht & _); tauto]|].
    split; [split; [intros _ (Hr & Ht & _); tauto | reflexivity]|].
    split; [discriminate|]. intros ok0 s0 H0. discriminate.
  - destruct Hinv.
Qed.

(** The demo arrays at 0 and 100, and an [int32_t] for [max_diff] in the
    cells 203 and 204. *)
Lemma verify_equal_faults_iff_witness :
  ((exists ok s', verify_equal_out 0 100 5 203 (init demo_heap) = Ok ok s') <->
   allocated demo_heap 0 5 /\ allocated demo_heap 100 5 /\ allocated demo_heap 203 2) /\
  (verify_equal_out 0 100 5 203 (init demo_heap) = Fault <->
   ~ (allocated demo_heap 0 5 /\ allocated demo_heap 100 5 /\ allocated demo_heap 203 2)) /\
  verify_equal_out 0 100 5 203 (init demo_heap) <> Timeout /\
  (forall ok s',
     verify_equal_out 0 100 5 203 (init demo_heap) = Ok ok s' ->
     cell_i32 (heap s') 203
     = max_abs_diff (read_array demo_heap 0 5) (read_array demo_heap 100 5) /\
     (ok = 1 <-> forall i, 0 <= i < 5 -> cell demo_heap (0 + i) = cell demo_heap (100 + i))).
Proof. apply verify_equal_faults_iff. lia. Defined.

(** On the demo arrays the call returns 0 and leaves 65535 at [max_diff];
    with [max_diff] outside the allocated cells it faults, although both
    arrays are valid. *)
Example verify_equal_out_demo :
  match verify_equal_out 0 100 5 203 (init demo_heap) with
  | Ok ok s' => ok = 0 /\ cell_i32 (heap s') 203 = 65535
  | _ => False
  end.
Proof. vm_compute. split; reflexivity. Qed.

Example verify_equal_out_bad_max_diff :
  verify_equal_out 0 100 5 300 (init demo_heap) = Fault.
Proof. vm_compute. reflexivity. Qed.

(** ** More on the comparison *)

Lemma max_abs_diff_sym r t : max_abs_diff r t = max_abs_diff t r.
Proof.
  revert t. induction r as [|x r IH]; intros [|y t]; try reflexivity.
  rewrite !max_abs_diff_cons, IH. f_equal. lia.
Qed.

Lemma max_abs_diff_zero_iff h ref test n :
  0 <= n ->
  max_abs_diff (read_array h ref n) (read_array h test n) = 0 <->
  forall i, 0 <= i < n -> cell h (ref + i) = cell h (test + i).
Proof.
  intros Hn.
  pose proof (max_abs_diff_is_max h ref test (Z.to_nat n)) as (_ & Hub & Hz & Hatt).
  rewrite Z2Nat.id in * by lia.
  set (md := max_abs_diff (read_array h ref n) (read_array h test n)) in *.
  split.
  - intros H0 i Hi. specialize (Hub i Hi). lia.
  - intros Hall. destruct (Z.eq_dec n 0) as [->|Hn0]; [apply Hz; reflexivity|].
    destruct Hatt as (j & Hj & Hm); [lia|]. rewrite Hm, (Hall j Hj). lia.
Qed.

(** X10. [verify_equal] is symmetric: comparing [test] against [ref]
    returns the same [ok] and the same [max_diff] as comparing [ref] against
    [test]. *)
Theorem verify_equal_symmetric h ref test n :
  0 <= n -> allocated h ref n -> allocated h test n ->
  exists ok md s1 s2,
    verify_equal ref test n (init h) = Ok (ok, md) s1 /\
    verify_equal test ref n (init h) = Ok (ok, md) s2.
Proof.
  intros Hn Hr Ht.
  destruct (verify_equal_run h ref test n Hn Hr Ht) as (ok1 & tr1 & Hrun1 & _ & Hb1 & Hiff1).
  destruct (verify_equal_run h test ref n Hn Ht Hr) as (ok2 & tr2 & Hrun2 & _ & Hb2 & Hiff2).
  exists ok1, (max_abs_diff (read_array h ref n) (read_array h test n)),
    (mkState h tr1), (mkState h tr2).
  split; [exact Hrun1|]. rewrite Hrun2, max_abs_diff_sym.
  assert (Hsame : ok1 = 1 <-> ok2 = 1).
  { rewrite Hiff1, Hiff2. split; intros H i Hi; symmetry; apply H, Hi. }
  assert (ok2 = ok1) as ->; [|reflexivity].
  destruct Hb1 as [-> | ->], Hb2 as [-> | ->]; try reflexivity.
  - assert (0 = 1) by (apply Hsame; reflexivity). lia.
  - assert (0 = 1) by (apply Hsame; reflexivity). lia.
Qed.

Lemma verify_equal_symmetric_witness :
  exists ok md s1 s2,
    verify_equal 0 100 5 (init demo_heap) = Ok (ok, md) s1 /\
    verify_equal 100 0 5 (init demo_heap) = Ok (ok, md) s2.
Proof. apply verify_equal_symmetric; [lia | demo_allocated | demo_allocated]. Defined.

(** X11. The reported maximum difference is never negative and never above
    65535; this is why it, and every intermediate difference, fits
    [int32_t]. *)
Theorem verify_equal_max_diff_bounded h ref test n :
  0 <= n -> allocated h ref n -> allocated h test n ->
  exists ok md s',
    verify_equal ref test n (init h) = Ok (ok, md) s' /\ 0 <= md <= 65535.
Proof.
  intros Hn Hr Ht.
  destruct (verify_equal_run h ref test n Hn Hr Ht) as (ok & tr & Hrun & _).
  pose proof (max_abs_diff_is_max h ref test (Z.to_nat n)) as (Hge & _ & Hz & Hatt).
  rewrite Z2Nat.id in * by lia.
  exists ok, (max_abs_diff (read_array h ref n) (read_array h test n)), (mkState h tr).
  split; [exact Hrun|]. split; [exact Hge|].
  destruct (Z.eq_dec n 0) as [->|Hn0]; [rewrite Hz by reflexivity; lia|].
  destruct Hatt as (j & Hj & ->); [lia|].
  pose proof (cell_range h (ref + j)) as H1. pose proof (cell_range h (test + j)) as H2.
  unfold is_i16, INT16_MIN, INT16_MAX in *. lia.
Qed.

Lemma verify_equal_max_diff_bounded_witness :
  exists ok md s',
    verify_equal 0 100 5 (init demo_heap) = Ok (ok, md) s' /\ 0 <= md <= 65535.
Proof. apply verify_equal_max_diff_bounded; [lia | demo_allocated | demo_allocated]. Defined.

(** X12. Comparing an array with itself reports success: [ok = 1] and
    [max_diff = 0], whatever the array holds. *)
Theorem verify_equal_self h p n :
  0 <= n -> allocated h p n ->
  exists s', verify_equal p p n (init h) = Ok (1, 0) s'.
Proof.
  intros Hn Hp.
  destruct (verify_equal_run h p p n Hn Hp Hp) as (ok & tr & Hrun & _ & _ & Hiff).
  assert (ok = 1) as -> by (apply Hiff; reflexivity).
  assert (Hmd : max_abs_diff (read_array h p n) (read_array h p n) = 0).
  { apply max_abs_diff_zero_iff; [exact Hn | reflexivity]. }
  rewrite Hmd in Hrun. eauto.
Qed.

Lemma verify_equal_self_witness :
  exists s', verify_equal 100 100 5 (init demo_heap) = Ok (1, 0) s'.
Proof. apply verify_equal_self; [lia | demo_allocated]. Defined.

(** ** Calls in sequence *)

Lemma disjoint_hazard_free y a n : 0 <= n -> disjoint y a n -> hazard_free y a n.
Proof. unfold disjoint, hazard_free. lia. Qed.

Lemma q15_axpy_ref_run_from s a b y n alpha :
  is_i16 alpha -> 0 <= n ->
  allocated (heap s) a n -> allocated (heap s) b n -> allocated (heap s) y n ->
  hazard_free y a n -> hazard_free y b n ->
  exists tr,
    q15_axpy_ref a b y n alpha s
    = Ok tt (mkState (write_lanes (heap s) y (map (out_elt (heap s) a b alpha) (seqZ 0 n)))
                     (trace s ++ tr)).
Proof.
  intros Hal Hn Ha Hb Hy Hza Hzb. unfold q15_axpy_ref.
  destruct (q15_axpy_ref_loop a b y alpha n (Z.to_nat n) 0 s)
    as (vs & _ & Hrun & Hval); try assumption; try lia;
    try (rewrite Z.add_0_r, Z2Nat.id by lia; assumption).
  rewrite Z.add_0_r, Z2Nat.id in * by lia.
  rewrite (Hval Hza (or_intror Hzb)) in Hrun. eauto.
Qed.

Lemma q15_axpy_rvv_run_from vsetvl_hw vxrm cfg (fuel : nat) s a b y n alpha :
  vsetvl_ok vsetvl_hw ->
  is_i16 alpha -> 0 <= n <= INT32_MAX -> n <= Z.of_nat fuel ->
  allocated (heap s) a n -> allocated (heap s) b n -> allocated (heap s) y n ->
  hazard_free y a n -> hazard_free y b n ->
  exists tr,
    q15_axpy_rvv vsetvl_hw vxrm cfg fuel a b y n alpha s
    = Ok tt (mkState (write_lanes (heap s) y (map (out_elt (heap s) a b alpha) (seqZ 0 n)))
                     (trace s ++ tr)).
Proof.
  intros Hhw Hal Hn Hfuel Ha Hb Hy Hza Hzb. unfold q15_axpy_rvv.
  destruct (fallback_build cfg).
  - apply q15_axpy_ref_run_from; try assumption. lia.
  - rewrite (to_size_t_id n Hn).
    destruct (q15_axpy_rvv_loop vsetvl_hw vxrm Hhw a b y n alpha Hal Hn fuel 0 s)
      as (vs & tr & _ & Hrun & _ & _ & _ & _ & Hval); try assumption; try lia.
    rewrite Z.add_0_r, Z.sub_0_r in *.
    rewrite (Hval Hza (or_intror Hzb)) in Hrun.
    unfold bind. rewrite Hrun. unfold ret. eauto.
Qed.

Lemma verify_equal_run_from s ref test n :
  0 <= n -> allocated (heap s) ref n -> allocated (heap s) test n ->
  exists ok tr,
    verify_equal ref test n s
    = Ok (ok, max_abs_diff (read_array (heap s) ref n) (read_array (heap s) test n))
         (mkState (heap s) (trace s ++ tr)) /\
    (ok = 1 <-> forall i, 0 <= i < n -> cell (heap s) (ref + i) = cell (heap s) (test + i)).
Proof.
  intros Hn Hr Ht. unfold verify_equal.
  destruct (verify_equal_loop ref test (Z.to_nat n) 0 1 0 s)
    as (ok & tr & Hrun & _ & _ & Hiff);
    try lia; try (rewrite Z.add_0_r, Z2Nat.id by lia; assumption).
  rewrite !Z.add_0_r, Z2Nat.id in * by lia.
  pose proof (max_abs_diff_is_max (heap s) ref test (Z.to_nat n)) as (Hge & _).
  rewrite Z2Nat.id in Hge by lia. rewrite Z.max_r in Hrun by exact Hge.
  exists ok, tr. split; [exact Hrun|]. rewrite Hiff. split.
  - intros [_ Hall]. exact Hall.
  - intros Hall. split; [reflexivity | exact Hall].
Qed.

Section SelfCheck.

Variable vsetvl_hw : Z -> Z.
Variable vxrm : rounding.
Hypothesis vsetvl_hw_ok : vsetvl_ok vsetvl_hw.

(** The reference into [y0], the kernel into [y1], then the comparison, from
    any state. *)
Lemma self_check_from cfg (fuel : nat) s a b y0 y1 n alpha :
  is_i16 alpha -> 0 <= n <= INT32_MAX -> n <= Z.of_nat fuel ->
  allocated (heap s) a n -> allocated (heap s) b n ->
  allocated (heap s) y0 n -> allocated (heap s) y1 n ->
  disjoint y0 a n -> disjoint y0 b n ->
  hazard_free y1 a n -> hazard_free y1 b n -> disjoint y0 y1 n ->
  exists s',
    (q15_axpy_ref a b y0 n alpha ;;;
     q15_axpy_rvv vsetvl_hw vxrm cfg fuel a b y1 n alpha ;;;
     verify_equal y0 y1 n) s = Ok (1, 0) s'.
Proof.
  intros Hal Hn Hfuel Ha Hb Hy0 Hy1 Hd0a Hd0b Hz1a Hz1b Hd01.
  destruct (q15_axpy_ref_run_from s a b y0 n alpha) as (tr1 & Hrun1);
    try assumption; try lia; try (apply disjoint_hazard_free; (lia || assumption)).
  set (h := heap s) in *.
  set (vs0 := map (out_elt h a b alpha) (seqZ 0 n)) in *.
  set (s1 := mkState (write_lanes h y0 vs0) (trace s ++ tr1)) in *.
  assert (Hlen0 : Z.of_nat (length vs0) = n).
  { subst vs0. rewrite length_map, length_seqZ. lia. }
  destruct (q15_axpy_rvv_run_from vsetvl_hw vxrm cfg fuel s1 a b y1 n alpha)
    as (tr2 & Hrun2); try assumption;
    try (subst s1; cbn [heap]; apply write_lanes_allocated; assumption).
  set (vs1 := map (out_elt (heap s1) a b alpha) (seqZ 0 n)) in *.
  set (s2 := mkState (write_lanes (heap s1) y1 vs1) (trace s1 ++ tr2)) in *.
  assert (Hlen1 : Z.of_nat (length vs1) = n).
  { subst vs1. rewrite length_map, length_seqZ. lia. }
  destruct (verify_equal_run_from s2 y0 y1 n) as (ok & tr3 & Hrun3 & Hiff);
    try lia;
    try (subst s2 s1; cbn [heap]; do 2 apply write_lanes_allocated; assumption).
  assert (Hall : forall i, 0 <= i < n ->
            cell (heap s2) (y0 + i) = cell (heap s2) (y1 + i)).
  { intros i Hi.
    assert (Hv0 : vs0 !! Z.to_nat i = Some (out_elt h a b alpha i)).
    { subst vs0. rewrite list_lookup_fmap, lookup_seqZ_lt by lia.
      cbn. f_equal. f_equal. lia. }
    assert (Hv1 : vs1 !! Z.to_nat i = Some (out_elt (heap s1) a b alpha i)).
    { subst vs1. rewrite list_lookup_fmap, lookup_seqZ_lt by lia.
      cbn. f_equal. f_equal. lia. }
    assert (H1 : cell (heap s2) (y1 + i) = out_elt (heap s1) a b alpha i).
    { subst s2. cbn [heap]. replace (y1 + i) with (y1 + Z.of_nat (Z.to_nat i)) by lia.
      apply cell_write_lanes_in; [exact Hv1 | apply out_elt_range]. }
    assert (H0 : cell (heap s2) (y0 + i) = out_elt h a b alpha i).
    { subst s2. cbn [heap].
      rewrite cell_write_lanes_out by (unfold disjoint in Hd01; lia).
      subst s1. cbn [heap]. replace (y0 + i) with (y0 + Z.of_nat (Z.to_nat i)) by lia.
      apply cell_write_lanes_in; [exact Hv0 | apply out_elt_range]. }
    rewrite H0, H1. symmetry. subst s1. cbn [heap].
    unfold disjoint in Hd0a, Hd0b.
    apply out_elt_ext; apply write_lanes_lookup_out; lia. }
  assert (ok = 1) as -> by (apply Hiff; exact Hall).
  assert (Hmd : max_abs_diff (read_array (heap s2) y0 n) (read_array (heap s2) y1 n) = 0).
  { apply max_abs_diff_zero_iff; [lia | exact Hall]. }
  rewrite Hmd in Hrun3.
  eexists. unfold bind. rewrite Hrun1. fold s1. rewrite Hrun2. fold s2. exact Hrun3.
Qed.

End SelfCheck.

(** X13. The self-check passes: when the reference writes [y0] and the
    kernel, on any conforming hart, writes [y1] from the same inputs,
    [verify_equal] on [y0] and [y1] returns [ok = 1] and [max_diff = 0].
    Layout: [y0] overlaps neither [a], [b] nor [y1], and no element of [a]
    or [b] is overwritten through [y1] before it is read ([hazard_free]:
    [y1 <= a] or [a + n <= y1], and likewise for [b]). *)
Theorem self_check_passes vsetvl_hw vxrm cfg (fuel : nat) h a b y0 y1 n alpha :
  vsetvl_ok vsetvl_hw ->
  is_i16 alpha -> 0 <= n <= INT32_MAX -> n <= Z.of_nat fuel ->
  allocated h a n -> allocated h b n -> allocated h y0 n -> allocated h y1 n ->
  disjoint y0 a n -> disjoint y0 b n ->
  hazard_free y1 a n -> hazard_free y1 b n -> disjoint y0 y1 n ->
  exists s',
    (q15_axpy_ref a b y0 n alpha ;;;
     q15_axpy_rvv vsetvl_hw vxrm cfg fuel a b y1 n alpha ;;;
     verify_equal y0 y1 n) (init h) = Ok (1, 0) s'.
Proof.
  intros Hhw Hal Hn Hfuel Ha Hb Hy0 Hy1 Hd0a Hd0b Hz1a Hz1b Hd01.
  apply (self_check_from vsetvl_hw vxrm Hhw); assumption.
Qed.

Lemma self_check_passes_witness :
  exists s',
    (q15_axpy_ref 0 100 200 2 3 ;;;
     q15_axpy_rvv (vsetvl_vlmax 2) RNU vector_build 2 0 100 203 2 3 ;;;
     verify_equal 200 203 2) (init demo_heap) = Ok (1, 0) s'.
Proof.
  apply self_check_passes.
  - apply vsetvl_vlmax_ok. lia.
  - demo_range.
  - demo_range.
  - lia.
  - demo_allocated.
  - demo_allocated.
  - demo_allocated.
  - demo_allocated.
  - unfold disjoint. lia.
  - unfold disjoint. lia.
  - unfold hazard_free. lia.
  - unfold hazard_free. lia.
  - unfold disjoint. lia.
Defined.

(** ** The driver *)

Lemma rand_q15_run r s : rand_q15 r s = Ok (cast_i16 (Z.rem r 65536 - 32768)) s.
Proof.
  unfold rand_q15, bind, sub_i32.
  pose proof (Z.rem_bound_abs r 65536) as Hb.
  rewrite checked_i32_run; [reflexivity|].
  unfold is_i32, INT32_MIN, INT32_MAX. lia.
Qed.

(** X14. The test data: for every value [r >= 0] that [rand()] can return,
    the sample stored is exactly [r mod 65536 - 32768], a 16-bit value (the
    subtraction does not overflow and the cast loses nothing), and every
    16-bit value is the sample of some [r]. *)
Theorem rand_q15_exact r s :
  0 <= r ->
  rand_q15 r s = Ok (r mod 65536 - 32768) s /\
  is_i16 (r mod 65536 - 32768) /\
  (forall v, is_i16 v -> rand_q15 (v + 32768) s = Ok v s).
Proof.
  intros Hr.
  assert (Hgen : forall x, 0 <= x -> rand_q15 x s = Ok (x mod 65536 - 32768) s /\
                                     is_i16 (x mod 65536 - 32768)).
  { intros x Hx. rewrite rand_q15_run, Z.rem_mod_nonneg by lia.
    pose proof (Z.mod_pos_bound x 65536) as Hm.
    assert (Hi : is_i16 (x mod 65536 - 32768))
      by (unfold is_i16, INT16_MIN, INT16_MAX; lia).
    split; [|exact Hi]. unfold cast_i16. rewrite sint16_id by exact Hi. reflexivity. }
  destruct (Hgen r Hr) as [H1 H2]. split; [exact H1|]. split; [exact H2|].
  intros v Hv. unfold is_i16, INT16_MIN, INT16_MAX in Hv.
  destruct (Hgen (v + 32768)) as [H3 _]; [lia|].
  rewrite H3. f_equal. rewrite Z.mod_small by lia. lia.
Qed.

Lemma rand_q15_exact_witness :
  rand_q15 1804289383 (init ∅) = Ok (1804289383 mod 65536 - 32768) (init ∅) /\
  is_i16 (1804289383 mod 65536 - 32768) /\
  (forall v, is_i16 v -> rand_q15 (v + 32768) (init ∅) = Ok v (init ∅)).
Proof. apply rand_q15_exact. lia. Defined.

Lemma main_fill_body_run rand a b i s :
  is_Some (heap s !! (a + i)) -> is_Some (heap s !! (b + i)) ->
  exists va vb tr,
    main_fill_body rand a b i tt s
    = Ok tt (mkState (<[b + i := vb]> (<[a + i := va]> (heap s))) (trace s ++ tr)).
Proof.
  intros Ha Hb. destruct s as [h tr]. cbn [heap trace] in *.
  unfold main_fill_body.
  unfold bind at 1. rewrite rand_q15_run.
  unfold bind at 1. rewrite store_i16_run by exact Ha. cbn [heap trace].
  unfold bind at 1. rewrite rand_q15_run.
  rewrite store_i16_run; cbn [heap trace].
  - rewrite <- app_assoc. eauto.
  - destruct (decide (a + i = b + i)) as [->|Hne].
    + rewrite lookup_insert_eq. eauto.
    + rewrite lookup_insert_ne by done. exact Hb.
Qed.

(** The fill loop completes and allocates or frees nothing. *)
Lemma main_fill_run rand a b (k : nat) i s :
  allocated (heap s) (a + i) (Z.of_nat k) ->
  allocated (heap s) (b + i) (Z.of_nat k) ->
  exists s',
    for_range k i (main_fill_body rand a b) tt s = Ok tt s' /\
    forall p n, allocated (heap s) p n -> allocated (heap s') p n.
Proof.
  revert i s. induction k as [|k IH]; intros i s Ha Hb.
  - exists s. split; [reflexivity | auto].
  - apply allocated_tail in Ha as [Ha0 Ha]. apply allocated_tail in Hb as [Hb0 Hb].
    rewrite for_range_S.
    destruct (main_fill_body_run rand a b i s Ha0 Hb0) as (va & vb & tr & Hrun).
    rewrite Hrun.
    set (s1 := mkState _ _).
    destruct (IH (i + 1) s1) as (s' & Hrun' & Hpres).
    + rewrite Z.add_assoc. subst s1. cbn [heap]. do 2 apply allocated_insert. exact Ha.
    + rewrite Z.add_assoc. subst s1. cbn [heap]. do 2 apply allocated_insert. exact Hb.
    + exists s'. split; [exact Hrun'|]. intros p n Hp. apply Hpres.
      subst s1. cbn [heap]. do 2 apply allocated_insert. exact Hp.
Qed.

(** X15. The program passes its own check.  Without [__riscv] there is no
    program.  On a RISC-V build, whatever sequence [rand()] produces and on
    every conforming hart (with or without the vector path), [main] fills
    the arrays, runs the reference into [y0] and the kernel into [y1],
    finds them equal, and exits with status 0.  The four arrays of 4096
    elements are allocated; [y0] overlaps neither [a], [b] nor [y1], and no
    element of [a] or [b] is overwritten through [y1] before it is read
    ([y1 <= a] or [a + 4096 <= y1], likewise for [b]); four fresh, pairwise
    disjoint allocations are such a layout. *)
Theorem main_exits_zero vsetvl_hw vxrm cfg (fuel : nat) rand h a b y0 y1 :
  vsetvl_ok vsetvl_hw -> 4096 <= Z.of_nat fuel ->
  allocated h a 4096 -> allocated h b 4096 ->
  allocated h y0 4096 -> allocated h y1 4096 ->
  disjoint y0 a 4096 -> disjoint y0 b 4096 ->
  hazard_free y1 a 4096 -> hazard_free y1 b 4096 -> disjoint y0 y1 4096 ->
  (riscv cfg = false -> main vsetvl_hw vxrm cfg fuel rand a b y0 y1 = None) /\
  (riscv cfg = true ->
   exists prog s',
     main vsetvl_hw vxrm cfg fuel rand a b y0 y1 = Some prog /\
     prog (init h) = Ok 0 s').
Proof.
  intros Hhw Hfuel Ha Hb Hy0 Hy1 Hd0a Hd0b Hz1a Hz1b Hd01.
  unfold main. split; intros Hr; rewrite Hr; [reflexivity|].
  assert (Hal : is_i16 3) by demo_range.
  assert (Hn : 0 <= 4096 <= INT32_MAX) by (unfold INT32_MAX; lia).
  eexists. cut (exists s', main_body vsetvl_hw vxrm cfg fuel rand a b y0 y1 (init h) = Ok 0 s').
  { intros [s' Hs']. exists s'. split; [reflexivity | exact Hs']. }
  unfold main_body. cbv zeta. rewrite Hr.
  destruct (main_fill_run rand a b (Z.to_nat 4096) 0 (init h)) as (s1 & Hfill & Hpres);
    try (rewrite Z.add_0_r, Z2Nat.id by lia; assumption).
  unfold bind at 1. rewrite Hfill.
  destruct (self_check_from vsetvl_hw vxrm Hhw cfg fuel s1 a b y0 y1 4096 3)
    as (s' & Hrun); try assumption; try (apply Hpres; assumption).
  unfold bind in Hrun |- *.
  destruct (q15_axpy_ref a b y0 4096 3 s1) as [u s2| |]; try discriminate.
  destruct (q15_axpy_rvv vsetvl_hw vxrm cfg fuel a b y1 4096 3 s2) as [u' s3| |];
    try discriminate.
  rewrite Hrun. unfold ret. cbn. eauto.
Qed.

Lemma write_lanes_allocated_self h p v i n :
  0 <= i -> i + n <= Z.of_nat (length v) -> allocated (write_lanes h p v) (p + i) n.
Proof.
  intros Hi Hn j Hj.
  destruct (lookup_lt_is_Some_2 v (Z.to_nat (i + j))) as [x Hx]; [lia|].
  replace (p + i + j) with (p + Z.of_nat (Z.to_nat (i + j))) by lia.
  rewrite (write_lanes_lookup_in h p v _ x Hx). eauto.
Qed.

Lemma main_heap_allocated i : 0 <= i -> i + 4096 <= 16384 -> allocated main_heap i 4096.
Proof.
  intros Hi Hn. unfold main_heap.
  replace i with (0 + i) by lia. apply write_lanes_allocated_self; [lia|].
  rewrite length_replicate.
  replace (Z.of_nat (4 * 4096)) with 16384 by (vm_compute; reflexivity). lia.
Qed.

Lemma main_exits_zero_witness :
  (riscv vector_build = false ->
   main (vsetvl_vlmax 8) RNU vector_build 4096 (fun k => 1103515245 * k + 12345)
        0 4096 8192 12288 = None) /\
  (riscv vector_build = true ->
   exists prog s',
     main (vsetvl_vlmax 8) RNU vector_build 4096 (fun k => 1103515245 * k + 12345)
          0 4096 8192 12288 = Some prog /\
     prog (init main_heap) = Ok 0 s').
Proof.
  apply main_exits_zero.
  - apply vsetvl_vlmax_ok. lia.
  - vm_compute. discriminate.
  - apply main_heap_allocated; lia.
  - apply main_heap_allocated; lia.
  - apply main_heap_allocated; lia.
  - apply main_heap_allocated; lia.
  - unfold disjoint. lia.
  - unfold disjoint. lia.
  - unfold hazard_free. lia.
  - unfold hazard_free. lia.
  - unfold disjoint. lia.
Defined.

(** ** The access schedule of the chunked loop *)

Lemma rvv_trace_done hw a b y n fuel i : n <= i -> rvv_trace hw a b y n fuel i = [].
Proof.
  intros H. destruct fuel; cbn [rvv_trace];
    (destruct (i <? n) eqn:E; [apply Z.ltb_lt in E; lia | reflexivity]).
Qed.

Lemma rvv_trace_step hw a b y n fuel i :
  i < n ->
  rvv_trace hw a b y n (S fuel) i
  = EvVsetvl (n - i) (hw (n - i))
      :: map EvLoad (seqZ (a + i) (hw (n - i)))
      ++ map EvLoad (seqZ (b + i) (hw (n - i)))
      ++ map EvStore (seqZ (y + i) (hw (n - i)))
      ++ rvv_trace hw a b y n fuel (i + hw (n - i)).
Proof.
  intros H. cbn [rvv_trace]. destruct (i <? n) eqn:E; [reflexivity|].
  apply Z.ltb_ge in E. lia.
Qed.

Section Schedule.

Variable vsetvl_hw : Z -> Z.
Variable vxrm : rounding.
Hypothesis vsetvl_hw_ok : vsetvl_ok vsetvl_hw.

Variables a b y n alpha : Z.
Hypothesis alpha_i16 : is_i16 alpha.
Hypothesis n_int : 0 <= n <= INT32_MAX.

Lemma q15_axpy_rvv_loop_trace (fuel : nat) i s :
  0 <= i <= n -> n - i <= Z.of_nat fuel ->
  allocated (heap s) a n -> allocated (heap s) b n -> allocated (heap s) y n ->
  exists h',
    while_lt fuel n (q15_axpy_rvv_body vsetvl_hw vxrm a b y n alpha) i s
    = Ok n (mkState h' (trace s ++ rvv_trace vsetvl_hw a b y n fuel i)).
Proof.
  revert i s. induction fuel as [|fuel IH]; intros i s Hi Hfuel Ha Hb Hy.
  - assert (i = n) as -> by lia.
    rewrite while_lt_done, rvv_trace_done, app_nil_r by lia.
    destruct s as [h tr]. eauto.
  - destruct (Z.eq_dec i n) as [->|Hne].
    + rewrite while_lt_done, rvv_trace_done, app_nil_r by lia.
      destruct s as [h tr]. eauto.
    + assert (Hlt : i < n) by lia.
      destruct (vsetvl_hw_ok (n - i)) as [Hvl1 Hvl2]; [lia|].
      rewrite while_lt_step, rvv_trace_step by exact Hlt.
      set (k := Z.to_nat (vsetvl_hw (n - i))).
      assert (Hk : vsetvl_hw (n - i) = Z.of_nat k) by (subst k; lia).
      clearbody k. rewrite Hk in *.
      rewrite (q15_axpy_rvv_body_run vsetvl_hw vxrm a b y n alpha i k);
        try assumption; try lia;
        try (apply allocated_sub with (n := n); (assumption || lia)).
      set (s1 := mkState _ _).
      destruct (IH (i + Z.of_nat k) s1) as (h' & Hrun);
        try lia;
        try (subst s1; cbn [heap]; apply write_lanes_allocated; assumption).
      exists h'. rewrite Hrun. subst s1. cbn [trace].
      f_equal. f_equal. rewrite <- !app_assoc. cbn [app].
      rewrite <- !app_assoc. reflexivity.
Qed.

Lemma rvv_trace_chunks_cover (fuel : nat) i :
  0 <= i <= n -> n - i <= Z.of_nat fuel ->
  chunks_cover (n - i) (chunks (rvv_trace vsetvl_hw a b y n fuel i)).
Proof.
  revert i. induction fuel as [|fuel IH]; intros i Hi Hfuel.
  - rewrite rvv_trace_done by lia. cbn. lia.
  - destruct (Z.eq_dec i n) as [->|Hne].
    + rewrite rvv_trace_done by lia. cbn. lia.
    + destruct (vsetvl_hw_ok (n - i)) as [Hvl1 Hvl2]; [lia|].
      rewrite rvv_trace_step by lia.
      rewrite chunks_vsetvl, !chunks_app, !chunks_map_load, chunks_map_store.
      cbn [app chunks_cover]. split; [reflexivity|]. split; [lia|].
      replace (n - i - vsetvl_hw (n - i)) with (n - (i + vsetvl_hw (n - i))) by lia.
      apply IH; lia.
Qed.

Lemma rvv_trace_loads (fuel : nat) i :
  0 <= i <= n -> n - i <= Z.of_nat fuel ->
  loads (rvv_trace vsetvl_hw a b y n fuel i)
  ≡ₚ seqZ (a + i) (n - i) ++ seqZ (b + i) (n - i).
Proof.
  revert i. induction fuel as [|fuel IH]; intros i Hi Hfuel.
  - rewrite rvv_trace_done by lia. replace (n - i) with 0 by lia. reflexivity.
  - destruct (Z.eq_dec i n) as [->|Hne].
    + rewrite rvv_trace_done by lia. rewrite Z.sub_diag. reflexivity.
    + destruct (vsetvl_hw_ok (n - i)) as [Hvl1 Hvl2]; [lia|].
      rewrite rvv_trace_step by lia. set (vl := vsetvl_hw (n - i)) in *.
      rewrite loads_vsetvl, !loads_app, !loads_map_load, loads_map_store.
      cbn [app]. rewrite (IH (i + vl)) by lia.
      rewrite (seqZ_split (a + i) (n - i) vl), (seqZ_split (b + i) (n - i) vl) by lia.
      replace (n - (i + vl)) with (n - i - vl) by lia.
      rewrite !Z.add_assoc.
      set (A := seqZ (a + i) vl). set (B := seqZ (b + i) vl).
      set (A' := seqZ (a + i + vl) (n - i - vl)).
      set (B' := seqZ (b + i + vl) (n - i - vl)).
      rewrite <- !app_assoc. apply Permutation_app_head.
      rewrite !app_assoc. apply Permutation_app_tail.
      apply Permutation_app_comm.
Qed.

End Schedule.

Lemma q15_axpy_rvv_vector_trace vsetvl_hw vxrm cfg (fuel : nat) h a b y n alpha :
  vsetvl_ok vsetvl_hw -> fallback_build cfg = false ->
  is_i16 alpha -> 0 <= n <= INT32_MAX -> n <= Z.of_nat fuel ->
  allocated h a n -> allocated h b n -> allocated h y n ->
  exists h',
    q15_axpy_rvv vsetvl_hw vxrm cfg fuel a b y n alpha (init h)
    = Ok tt (mkState h' (rvv_trace vsetvl_hw a b y n fuel 0)).
Proof.
  intros Hhw Hcfg Hal Hn Hfuel Ha Hb Hy. unfold q15_axpy_rvv.
  rewrite Hcfg, (to_size_t_id n Hn).
  destruct (q15_axpy_rvv_loop_trace vsetvl_hw vxrm Hhw a b y n alpha Hal Hn fuel 0 (init h))
    as (h' & Hrun); try assumption; try lia.
  unfold bind. rewrite Hrun. unfold ret. cbn [init trace app]. eauto.
Qed.

(** X16. The chunks of a run of the kernel tile the array: the first
    request asks for all [n] elements, each request is granted between 1 and
    what it asked, the next asks for exactly what is left, and the last one
    leaves nothing; so the chunk sizes add up to [n], whatever chunk sizes
    the hart chooses. *)
Theorem q15_axpy_rvv_chunks_cover vsetvl_hw vxrm cfg (fuel : nat) h a b y n alpha :
  vsetvl_ok vsetvl_hw -> fallback_build cfg = false ->
  is_i16 alpha -> 0 <= n <= INT32_MAX -> n <= Z.of_nat fuel ->
  allocated h a n -> allocated h b n -> allocated h y n ->
  exists s',
    q15_axpy_rvv vsetvl_hw vxrm cfg fuel a b y n alpha (init h) = Ok tt s' /\
    chunks_cover n (chunks (trace s')) /\
    foldr Z.add 0 (map snd (chunks (trace s'))) = n.
Proof.
  intros Hhw Hcfg Hal Hn Hfuel Ha Hb Hy.
  destruct (q15_axpy_rvv_vector_trace vsetvl_hw vxrm cfg fuel h a b y n alpha)
    as (h' & Hrun); try assumption.
  eexists. split; [exact Hrun|]. cbn [trace].
  pose proof (rvv_trace_chunks_cover vsetvl_hw Hhw a b y n fuel 0) as Hc.
  rewrite Z.sub_0_r in Hc.
  assert (Hcov : chunks_cover n (chunks (rvv_trace vsetvl_hw a b y n fuel 0)))
    by (apply Hc; lia).
  split; [exact Hcov|].
  clear Hrun Hc. revert Hcov. generalize (chunks (rvv_trace vsetvl_hw a b y n fuel 0)).
  generalize n. intros m l. revert m.
  induction l as [|[avl vl] l IH]; intros m Hm; cbn in *; [lia|].
  destruct Hm as (_ & _ & Hm). rewrite (IH _ Hm). lia.
Qed.

Lemma q15_axpy_rvv_chunks_cover_witness :
  exists s',
    q15_axpy_rvv (vsetvl_vlmax 2) RNU vector_build 5 0 100 200 5 3 (init demo_heap)
    = Ok tt s' /\
    chunks_cover 5 (chunks (trace s')) /\
    foldr Z.add 0 (map snd (chunks (trace s'))) = 5.
Proof.
  apply q15_axpy_rvv_chunks_cover.
  - apply vsetvl_vlmax_ok. lia.
  - reflexivity.
  - demo_range.
  - demo_range.
  - lia.
  - demo_allocated.
  - demo_allocated.
  - demo_allocated.
Defined.

Lemma loads_ref_trace_perm a b y i k :
  loads (ref_trace a b y i k)
  ≡ₚ seqZ (a + i) (Z.of_nat k) ++ seqZ (b + i) (Z.of_nat k).
Proof.
  revert i. induction k as [|k IH]; intros i; [reflexivity|].
  rewrite ref_trace_S, loads_app, (IH (i + 1)), !seqZ_succ_nat, !Z.add_assoc.
  cbn. apply Permutation_skip. apply Permutation_middle.
Qed.

(** X17. Both evaluators load every element of [a] and of [b] exactly once
    (the loads of a run are a rearrangement of [a[0..n-1]] followed by
    [b[0..n-1]]), however the hart cuts the array into chunks. *)
Theorem q15_axpy_loads_each_once vsetvl_hw vxrm cfg (fuel : nat) h a b y n alpha :
  vsetvl_ok vsetvl_hw ->
  is_i16 alpha -> 0 <= n <= INT32_MAX -> n <= Z.of_nat fuel ->
  allocated h a n -> allocated h b n -> allocated h y n ->
  exists s_ref s_rvv,
    q15_axpy_ref a b y n alpha (init h) = Ok tt s_ref /\
    q15_axpy_rvv vsetvl_hw vxrm cfg fuel a b y n alpha (init h) = Ok tt s_rvv /\
    loads (trace s_ref) ≡ₚ seqZ a n ++ seqZ b n /\
    loads (trace s_rvv) ≡ₚ seqZ a n ++ seqZ b n.
Proof.
  intros Hhw Hal Hn Hfuel Ha Hb Hy.
  destruct (q15_axpy_ref_done h a b y n alpha) as (s1 & (Hrun1 & _) & Htr1);
    try assumption; try lia.
  assert (Hp1 : loads (trace s1) ≡ₚ seqZ a n ++ seqZ b n).
  { rewrite Htr1, loads_ref_trace_perm, !Z.add_0_r, Z2Nat.id by lia. reflexivity. }
  exists s1. destruct (fallback_build cfg) eqn:Hcfg.
  - exists s1. unfold q15_axpy_rvv. rewrite Hcfg. auto.
  - destruct (q15_axpy_rvv_vector_trace vsetvl_hw vxrm cfg fuel h a b y n alpha)
      as (h' & Hrun2); try assumption.
    eexists. split; [exact Hrun1|]. split; [exact Hrun2|]. split; [exact Hp1|].
    cbn [trace].
    rewrite (rvv_trace_loads vsetvl_hw Hhw a b y n fuel 0) by lia.
    rewrite !Z.add_0_r, Z.sub_0_r. reflexivity.
Qed.

Lemma q15_axpy_loads_each_once_witness :
  exists s_ref s_rvv,
    q15_axpy_ref 0 100 200 5 3 (init demo_heap) = Ok tt s_ref /\
    q15_axpy_rvv (vsetvl_vlmax 2) RNU vector_build 5 0 100 200 5 3 (init demo_heap)
    = Ok tt s_rvv /\
    loads (trace s_ref) ≡ₚ seqZ 0 5 ++ seqZ 100 5 /\
    loads (trace s_rvv) ≡ₚ seqZ 0 5 ++ seqZ 100 5.
Proof.
  apply q15_axpy_loads_each_once.
  - apply vsetvl_vlmax_ok. lia.
  - demo_range.
  - demo_range.
  - lia.
  - demo_allocated.
  - demo_allocated.
  - demo_allocated.
Defined.

Lemma rvv_trace_chunk_count vlmax a b y n (fuel : nat) i :
  1 <= vlmax -> 0 <= i <= n -> n - i <= Z.of_nat fuel ->
  Z.of_nat (length (chunks (rvv_trace (vsetvl_vlmax vlmax) a b y n fuel i)))
  = (n - i + vlmax - 1) / vlmax.
Proof.
  intros HV. revert i. induction fuel as [|fuel IH]; intros i Hi Hfuel.
  - rewrite rvv_trace_done by lia. replace (n - i) with 0 by lia. cbn [chunks omap length].
    symmetry. apply Z.div_small. lia.
  - destruct (Z.eq_dec i n) as [->|Hne].
    + rewrite rvv_trace_done by lia. rewrite Z.sub_diag. cbn [chunks omap length].
      symmetry. apply Z.div_small. lia.
    + rewrite rvv_trace_step by lia.
      rewrite chunks_vsetvl, !chunks_app, !chunks_map_load, chunks_map_store.
      cbn [app length]. rewrite Nat2Z.inj_succ.
      unfold vsetvl_vlmax at 2.
      destruct (Z.le_gt_cases (n - i) vlmax) as [Hle|Hgt].
      * rewrite Z.min_l by lia. rewrite rvv_trace_done by lia.
        cbn [chunks omap length].
        apply (Z.div_unique (n - i + vlmax - 1) vlmax 1 (n - i - 1)); lia.
      * rewrite Z.min_r by lia. rewrite IH by lia.
        replace (n - i + vlmax - 1) with (n - (i + vlmax) + vlmax - 1 + 1 * vlmax) by lia.
        rewrite Z.div_add by lia. lia.
Qed.

(** X18. On a hart that grants [min(avl, VLMAX)] elements per request, the
    kernel runs exactly [ceil(n / VLMAX)] iterations of its loop. *)
Theorem q15_axpy_rvv_iterations vlmax vxrm cfg (fuel : nat) h a b y n alpha :
  1 <= vlmax -> fallback_build cfg = false ->
  is_i16 alpha -> 0 <= n <= INT32_MAX -> n <= Z.of_nat fuel ->
  allocated h a n -> allocated h b n -> allocated h y n ->
  exists s',
    q15_axpy_rvv (vsetvl_vlmax vlmax) vxrm cfg fuel a b y n alpha (init h) = Ok tt s' /\
    Z.of_nat (length (chunks (trace s'))) = (n + vlmax - 1) / vlmax.
Proof.
  intros HV Hcfg Hal Hn Hfuel Ha Hb Hy.
  destruct (q15_axpy_rvv_vector_trace (vsetvl_vlmax vlmax) vxrm cfg fuel h a b y n alpha)
    as (h' & Hrun); try assumption; [apply vsetvl_vlmax_ok; exact HV|].
  eexists. split; [exact Hrun|]. cbn [trace].
  rewrite rvv_trace_chunk_count by lia. rewrite Z.sub_0_r. reflexivity.
Qed.

Lemma q15_axpy_rvv_iterations_witness :
  exists s',
    q15_axpy_rvv (vsetvl_vlmax 2) RNU vector_build 5 0 100 200 5 3 (init demo_heap)
    = Ok tt s' /\
    Z.of_nat (length (chunks (trace s'))) = (5 + 2 - 1) / 2.
Proof.
  apply q15_axpy_rvv_iterations.
  - lia.
  - reflexivity.
  - demo_range.
  - demo_range.
  - lia.
  - demo_allocated.
  - demo_allocated.
  - demo_allocated.
Defined.

(** ** In-place use *)

(** X19. Both evaluators can update [a] in place: called with [y = a] they
    complete and replace every [a[i]], [i < n], by the clamp of
    [a[i] + alpha * b[i]] computed from the old contents, provided no
    element of [b] is overwritten before it is read. *)
Theorem q15_axpy_in_place vsetvl_hw vxrm cfg (fuel : nat) h a b n alpha :
  vsetvl_ok vsetvl_hw ->
  is_i16 alpha -> 0 <= n <= INT32_MAX -> n <= Z.of_nat fuel ->
  allocated h a n -> allocated h b n -> hazard_free a b n ->
  exists s_ref s_rvv,
    q15_axpy_ref a b a n alpha (init h) = Ok tt s_ref /\
    q15_axpy_rvv vsetvl_hw vxrm cfg fuel a b a n alpha (init h) = Ok tt s_rvv /\
    forall i, 0 <= i < n ->
      cell (heap s_ref) (a + i)
      = clamp (cell h (a + i) + alpha * cell h (b + i)) (-32768) 32767 /\
      cell (heap s_rvv) (a + i)
      = clamp (cell h (a + i) + alpha * cell h (b + i)) (-32768) 32767.
Proof.
  intros Hhw Hal Hn Hfuel Ha Hb Hzb.
  assert (Hza : hazard_free a a n) by (unfold hazard_free; lia).
  destruct (q15_axpy_ref_done h a b a n alpha) as (s1 & H1 & _);
    try assumption; try lia.
  destruct (q15_axpy_rvv_done vsetvl_hw vxrm Hhw cfg fuel h a b a n alpha)
    as (s2 & H2); try assumption.
  exists s1, s2. split; [apply H1|]. split; [apply H2|]. intros i Hi.
  rewrite (axpy_done_cell _ _ _ _ _ _ _ _ i H1 Hza (or_intror Hzb) Hi),
    (axpy_done_cell _ _ _ _ _ _ _ _ i H2 Hza (or_intror Hzb) Hi).
  unfold out_elt, q15_elt. rewrite sat_q15_scalar_clamp. split; reflexivity.
Qed.

Lemma q15_axpy_in_place_witness :
  exists s_ref s_rvv,
    q15_axpy_ref 0 100 0 5 3 (init demo_heap) = Ok tt s_ref /\
    q15_axpy_rvv (vsetvl_vlmax 2) RNU vector_build 5 0 100 0 5 3 (init demo_heap)
    = Ok tt s_rvv /\
    forall i, 0 <= i < 5 ->
      cell (heap s_ref) (0 + i)
      = clamp (cell demo_heap (0 + i) + 3 * cell demo_heap (100 + i)) (-32768) 32767 /\
      cell (heap s_rvv) (0 + i)
      = clamp (cell demo_heap (0 + i) + 3 * cell demo_heap (100 + i)) (-32768) 32767.
Proof.
  apply q15_axpy_in_place.
  - apply vsetvl_vlmax_ok. lia.
  - demo_range.
  - demo_range.
  - lia.
  - demo_allocated.
  - demo_allocated.
  - unfold hazard_free. lia.
Defined.
